(** * clangd background index: the incremental-update engine

    A shallow embedding of [clang-tools-extra/clangd/index/Background.cpp]
    and the properties of its staleness rule, its per-file update loop, the
    project loader and the boost keying.

    The class [BackgroundIndex] becomes a record holding the members the
    code mutates; member functions become functions in a state monad whose
    failure case is a process abort (failed [assert], [llvm::cantFail] on an
    error, dereference of a disengaged [llvm::Optional]).  Calls made on
    collaborators that live in other files (shard storage, [FileSymbols],
    the rebuilder, [elog]) are recorded, in program order, in a trace.

    The model is of one thread: a [std::lock_guard] delimits a block and has
    no other effect.  Tracing spans and the [log] and [vlog] lines are left
    out; [elog] lines are kept.  A [llvm::StringMap] or [llvm::DenseSet] is
    a [gmap] or [gset], iterated in the order of [map_to_list] or
    [elements]; the statements below hold for the events and entries of a
    run, not for their order across files. *)

From Stdlib Require Import NArith Ascii String List.
From stdpp Require Import base option list strings gmap.

Local Open Scope string_scope.
Local Open Scope list_scope.

(** ** Data model *)

(** [FileDigest] is [std::array<uint8_t, 8>]; the eight bytes are read as one
    number.  Only equality of digests is ever used. *)
Abbreviation FileDigest := N (only parsing).

(** The message carried by an [llvm::Error] or a [std::error_code]. *)
Abbreviation Error := string (only parsing).

(** [tooling::CompileCommand]. *)
Record CompileCommand := mkCompileCommand {
  Directory : string;
  Filename : string;
  CommandLine : list string;
  Output : string;
}.

#[global] Instance CompileCommand_eq_dec : EqDecision CompileCommand.
Proof. solve_decision. Defined.

(** [BackgroundIndex::ShardVersion], with its default member initialisers. *)
Record ShardVersion := mkShardVersion {
  SV_Digest : FileDigest;
  SV_HadErrors : bool;
}.

Definition ShardVersion_default : ShardVersion :=
  {| SV_Digest := 0%N; SV_HadErrors := false |}.

#[global] Instance ShardVersion_eq_dec : EqDecision ShardVersion.
Proof. solve_decision. Defined.

(** [IncludeGraphNode] (Headers.h); [Flags] is the [uint8_t] bit set
    [SourceFlag]. *)
Record IncludeGraphNode := mkIncludeGraphNode {
  Flags : N;
  URI : string;
  IGN_Digest : FileDigest;
  DirectIncludes : list string;
}.

(** [IncludeGraph] is [llvm::StringMap<IncludeGraphNode>], keyed by URI. *)
Abbreviation IncludeGraph := (gmap string IncludeGraphNode) (only parsing).

(** The slab types of index/Symbol.h, index/Ref.h and index/Relation.h are
    opaque here: the code only moves them around. *)
Class Slabs := {
  SymbolSlab : Type;
  RefSlab : Type;
  RelationSlab : Type;
}.

Section DataModel.
Context `{Slabs}.

(** [IndexFileIn] (index/Serialization.h): every member is an
    [llvm::Optional]. *)
Record IndexFileIn := mkIndexFileIn {
  Symbols : option SymbolSlab;
  Refs : option RefSlab;
  Relations : option RelationSlab;
  Sources : option IncludeGraph;
  Cmd : option CompileCommand;
}.

(** [IF.Cmd.reset()]. *)
Definition Cmd_reset (IF : IndexFileIn) : IndexFileIn :=
  {| Symbols := Symbols IF; Refs := Refs IF; Relations := Relations IF;
     Sources := Sources IF; Cmd := None |}.

(** [FileShardedIndex ShardedIndex(std::move(Index), MainFile)]: the object
    is determined by its two constructor arguments. *)
Record FileShardedIndex := mkFileShardedIndex {
  FSI_Index : IndexFileIn;
  FSI_MainFile : string;
}.

(** [LoadedShard] (index/BackgroundIndexLoader.h); [LS_Shard] is the
    [unique_ptr], null when storage had no valid shard. *)
Record LoadedShard := mkLoadedShard {
  AbsolutePath : string;
  LS_Digest : FileDigest;
  CountReferences : bool;
  LS_HadErrors : bool;
  DependentTU : string;
  LS_Shard : option IndexFileIn;
}.

(** Operations on the rebuilder ([BackgroundIndexRebuilder]). *)
Inductive RebuilderCall :=
| startLoading
| loadedShard (LoadedShards : nat)
| doneLoading
| indexedTU.

(** What the code does to the outside, and to the version table. *)
Inductive Event :=
| EvStoreShard (ShardIdentifier : string) (Shard : IndexFileIn)
    (Result : option Error)
| EvElog (Fmt : string) (Args : list string)
| EvSetShardVersion (Path : string) (SV : ShardVersion)
| EvIndexedSymbolsUpdate (Key : string) (Syms : option SymbolSlab)
    (Rs : option RefSlab) (Rels : option RelationSlab)
    (CountRefs : bool)
| EvRebuilder (Call : RebuilderCall).

(** One run of the compiler front end inside [index], lines 255-324: the
    first step that fails, or the slabs handed to the four callbacks of
    [createStaticIndexingAction] together with the two diagnostics queries
    made afterwards. *)
Inductive FrontendRun :=
| NoCompilerInvocation
| NoCompilerInstance
| BeginSourceFileFailed
| ExecuteFailed (Err : Error)
| Executed (Syms : option SymbolSlab) (Rs : option RefSlab)
    (Rels : option RelationSlab) (Srcs : option IncludeGraph)
    (hasDiagnostics hasUncompilableErrorOccurred : bool).

End DataModel.

(** ** The task queue *)

(** Modelled from the spec: the [QueuePriority] tiers are declared in
    Background.h, which is not among the sources.  Section 4.1 orders them,
    highest to lowest, LoadShards > IndexBoostedFile > IndexFile. *)
Inductive QueuePriority := IndexFile | IndexBoostedFile | LoadShards.

Definition QueuePriority_rank (P : QueuePriority) : nat :=
  match P with
  | IndexFile => 0
  | IndexBoostedFile => 1
  | LoadShards => 2
  end.

#[global] Instance QueuePriority_eq_dec : EqDecision QueuePriority.
Proof. solve_decision. Defined.

(** What a task runs: the two lambdas of [indexFileTask] and
    [changedFilesTask], by their captures. *)
Inductive TaskAction :=
| RunIndex (C : CompileCommand)
| RunChangedFiles (ChangedFiles : list string).

(** [llvm::ThreadPriority]. *)
Inductive ThreadPriority := Background | Default.

(** [BackgroundQueue::Task]. *)
Record Task := mkTask {
  Run : TaskAction;
  ThreadPri : ThreadPriority;
  QueuePri : QueuePriority;
  Tag : string;
}.

Definition Task_set_QueuePri (P : QueuePriority) (T : Task) : Task :=
  {| Run := Run T; ThreadPri := ThreadPri T; QueuePri := P; Tag := Tag T |}.

Definition Task_set_Tag (S : string) (T : Task) : Task :=
  {| Run := Run T; ThreadPri := ThreadPri T; QueuePri := QueuePri T;
     Tag := S |}.

Definition Task_set_ThreadPri (P : ThreadPriority) (T : Task) : Task :=
  {| Run := Run T; ThreadPri := P; QueuePri := QueuePri T; Tag := Tag T |}.

(** Modelled from the spec: [BackgroundQueue::boost] is defined in
    BackgroundQueue.cpp, which is not among the sources.  Section 4.1:
    it "retroactively raises the priority tier of any still-pending task
    carrying [tag] to [newPriority]".  A task already at or above the new
    tier is not raised. *)
Definition BackgroundQueue_boost (BoostTag : string)
    (NewPriority : QueuePriority) (Pending : list Task) : list Task :=
  map (fun T =>
         if bool_decide (Tag T = BoostTag)
            && (QueuePriority_rank (QueuePri T) <? QueuePriority_rank NewPriority)%nat
         then Task_set_QueuePri NewPriority T
         else T)
      Pending.

(** ** Collaborators

    Everything [Background.cpp] calls but does not define.  The functions are
    taken as they are declared; nothing is assumed about them. *)
Class Collaborators `{Slabs} := {
  (** [digest] of SourceCode.h. *)
  digest : string -> FileDigest;
  (** [URI::resolve(Uri, HintPath)], an [llvm::Expected<std::string>]. *)
  URI_resolve : string -> string -> Error + string;
  (** [FileShardedIndex::getShard] (index/FileIndex.h). *)
  getShard : FileShardedIndex -> string -> IndexFileIn;
  (** The state behind [IndexStorageFactory] and
      [IndexStorageFactory(Path)->storeShard(Path, IF)], whose [llvm::Error]
      is [None] on success. *)
  Storage : Type;
  storeShard : string -> IndexFileIn -> Storage -> option Error * Storage;
  (** [loadIndexShards(MainFiles, IndexStorageFactory, CDB)]. *)
  loadIndexShards : list string -> Storage -> list LoadedShard;
  (** [FSProvider.getFileSystem()->getBufferForFile(Path)]. *)
  getBufferForFile : string -> Error + string;
  (** [CDB.getCompileCommand(File)]. *)
  getCompileCommand : string -> option CompileCommand;
  (** The source manager of the running compiler, as seen by the file
      filter: [SM.getFileEntryForID], [getCanonicalPath], [digestFile]. *)
  SourceManager : Type;
  FileID : Type;
  FileEntry : Type;
  getFileEntryForID : SourceManager -> FileID -> option FileEntry;
  getCanonicalPath : FileEntry -> SourceManager -> option string;
  digestFile : SourceManager -> FileID -> option FileDigest;
  (** [buildCompilerInvocation], [prepareCompilerInstance] and the indexing
      action run on a command, the main file's buffer and the file filter. *)
  runFrontend :
    CompileCommand -> string -> (SourceManager -> FileID -> bool) ->
    FrontendRun;
  (** [isHeaderFile] of SourceCode.h. *)
  isHeaderFile : string -> bool;
  (** [llvm::sys::path]: [is_absolute], [append] followed by
      [remove_dots(_, true)], [filename], [extension]. *)
  path_is_absolute : string -> bool;
  path_append_remove_dots : string -> string -> string;
  path_filename : string -> string;
  path_extension : string -> string;
  (** The value of [IncludeGraphNode::SourceFlag::HadErrors]. *)
  SourceFlag_HadErrors : N;
  (** The constructor [Task(Run)] with the default member initialisers of
      Background.h. *)
  Task_new : TaskAction -> Task;
}.

(** ** State and effects *)

Section Background.
Context `{Collaborators}.

(** The members of [BackgroundIndex] that the code reads and writes, the
    storage state, and the trace of events so far (oldest first). *)
Record BackgroundIndex := mkBackgroundIndex {
  ShardVersions : gmap string ShardVersion;
  Queue : list Task;
  IndexStorage : Storage;
  Trace : list Event;
}.

(** A computation either aborts the process ([None]) or returns a value and
    the next state. *)
Definition M (A : Type) : Type := BackgroundIndex -> option (A * BackgroundIndex).

Definition ret {A} (a : A) : M A := fun st => Some (a, st).

Definition bind {A B} (c : M A) (k : A -> M B) : M B :=
  fun st => match c st with
            | Some (a, st') => k a st'
            | None => None
            end.

Definition abort {A} : M A := fun _ => None.

Notation "'let*' x ':=' c 'in' k" := (bind c (fun x => k))
  (at level 10, x pattern, c at level 100, k at level 200, only parsing).
Notation "c ';;;' k" := (bind c (fun _ => k))
  (at level 100, k at level 200, right associativity, only parsing).

Definition emit (E : Event) : M unit :=
  fun st => Some (tt, {| ShardVersions := ShardVersions st; Queue := Queue st;
                         IndexStorage := IndexStorage st;
                         Trace := Trace st ++ [E] |}).

Definition elog (Fmt : string) (Args : list string) : M unit :=
  emit (EvElog Fmt Args).

Definition getShardVersions : M (gmap string ShardVersion) :=
  fun st => Some (ShardVersions st, st).

Definition putShardVersions (SVs : gmap string ShardVersion) : M unit :=
  fun st => Some (tt, {| ShardVersions := SVs; Queue := Queue st;
                         IndexStorage := IndexStorage st;
                         Trace := Trace st |}).

(** [*O] on an [llvm::Optional]. *)
Definition deref {A} (O : option A) : M A :=
  match O with
  | Some a => ret a
  | None => abort
  end.

(** [bool(O)] on an [llvm::Optional] or a pointer. *)
Definition engaged {A} (O : option A) : bool :=
  match O with
  | Some _ => true
  | None => false
  end.

(** [assert(C)]. *)
Definition assert (C : bool) : M unit := if C then ret tt else abort.

(** The call [IndexStorageFactory(Path)->storeShard(Path, IF)]. *)
Definition callStoreShard (Path : string) (IF : IndexFileIn) : M (option Error) :=
  fun st =>
    let '(Err, Sto) := storeShard Path IF (IndexStorage st) in
    Some (Err, {| ShardVersions := ShardVersions st; Queue := Queue st;
                  IndexStorage := Sto;
                  Trace := Trace st ++ [EvStoreShard Path IF Err] |}).

(** [for (X : Xs) Body(X)]. *)
Fixpoint forEach {A} (Body : A -> M unit) (Xs : list A) : M unit :=
  match Xs with
  | [] => ret tt
  | X :: Rest => Body X ;;; forEach Body Rest
  end.

(** ** [BackgroundIndex::update] *)

(** The condition of lines 186-188 on one source of the include graph. *)
Definition needsUpdate (ShardVersionsSnapshot : gmap string ShardVersion)
    (AbsPath : string) (IGN : IncludeGraphNode) (HadErrors : bool) : bool :=
  match ShardVersionsSnapshot !! AbsPath with
  | None => true
  | Some SV =>
      negb (SV_Digest SV =? IGN_Digest IGN)%N
      || (SV_HadErrors SV && negb HadErrors)
  end.

(** The first loop of [update], lines 177-190.  [llvm::cantFail] aborts when
    the URI does not resolve. *)
Fixpoint collectFilesToUpdate (MainFile : string)
    (ShardVersionsSnapshot : gmap string ShardVersion) (HadErrors : bool)
    (Nodes : list (string * IncludeGraphNode))
    (FilesToUpdate : gmap string FileDigest) : option (gmap string FileDigest) :=
  match Nodes with
  | [] => Some FilesToUpdate
  | (_, IGN) :: Rest =>
      match URI_resolve (URI IGN) MainFile with
      | inl _ => None
      | inr AbsPath =>
          collectFilesToUpdate MainFile ShardVersionsSnapshot HadErrors Rest
            (if needsUpdate ShardVersionsSnapshot AbsPath IGN HadErrors
             then <[AbsPath := IGN_Digest IGN]> FilesToUpdate
             else FilesToUpdate)
      end
  end.

(** [ShardVersions.try_emplace(Path)]: the map, the entry now at [Path], and
    whether it was inserted. *)
Definition try_emplace (Path : string) (SVs : gmap string ShardVersion)
    : gmap string ShardVersion * ShardVersion * bool :=
  match SVs !! Path with
  | Some SV => (SVs, SV, false)
  | None => (<[Path := ShardVersion_default]> SVs, ShardVersion_default, true)
  end.

(** The block under [ShardVersionsMu], lines 212-232. *)
Definition updateLocked (MainFile : string) (HadErrors : bool)
    (Path : string) (Hash : FileDigest) (IF : IndexFileIn) : M unit :=
  let* SVs := getShardVersions in
  let '(SVs', SV, Inserted) := try_emplace Path SVs in
  putShardVersions SVs' ;;;
  if negb Inserted && (SV_Digest SV =? Hash)%N && SV_HadErrors SV
     && negb HadErrors
  then ret tt
  else
    let SV' := {| SV_Digest := Hash; SV_HadErrors := HadErrors |} in
    putShardVersions (<[Path := SV']> SVs') ;;;
    emit (EvSetShardVersion Path SV') ;;;
    let* Syms := deref (Symbols IF) in
    let* Rs := deref (Refs IF) in
    let* Rels := deref (Relations IF) in
    emit (EvIndexedSymbolsUpdate Path (Some Syms) (Some Rs) (Some Rels)
            (bool_decide (Path = MainFile))).

(** One iteration of the second loop, lines 196-233. *)
Definition updateFile (MainFile : string) (ShardedIndex : FileShardedIndex)
    (HadErrors : bool) (FileIt : string * FileDigest) : M unit :=
  let Path := FileIt.1 in
  let IF := getShard ShardedIndex Path in
  let IF := if bool_decide (Path ≠ MainFile) then Cmd_reset IF else IF in
  let* Err := callStoreShard Path IF in
  match Err with
  | Some E =>
      elog "Failed to write background-index shard for file {0}: {1}" [Path; E]
  | None => ret tt
  end ;;;
  updateLocked MainFile HadErrors Path FileIt.2 IF.

(** [update], lines 173-234: select the files whose entry in the snapshot
    differs, then store, record and merge the shard of each.  The two aborts
    are [*Index.Sources] on an index without sources and [llvm::cantFail] on
    a URI that does not resolve. *)
Definition update (MainFile : string) (Index : IndexFileIn)
    (ShardVersionsSnapshot : gmap string ShardVersion) (HadErrors : bool)
    : M unit :=
  let* Srcs := deref (Sources Index) in
  let* FilesToUpdate :=
    deref (collectFilesToUpdate MainFile ShardVersionsSnapshot HadErrors
             (map_to_list Srcs) ∅) in
  let ShardedIndex := {| FSI_Index := Index; FSI_MainFile := MainFile |} in
  forEach (updateFile MainFile ShardedIndex HadErrors)
          (map_to_list FilesToUpdate).

(** ** [BackgroundIndex::index] *)

(** [getAbsolutePath], lines 67-77. *)
Definition getAbsolutePath (C : CompileCommand) : string :=
  if path_is_absolute (Filename C) then Filename C
  else path_append_remove_dots (Directory C) (Filename C).

(** The lambda assigned to [IndexOpts.FileFilter], lines 273-289. *)
Definition FileFilter (ShardVersionsSnapshot : gmap string ShardVersion)
    (SM : SourceManager) (FID : FileID) : bool :=
  match getFileEntryForID SM FID with
  | None => false
  | Some F =>
      match getCanonicalPath F SM with
      | None => false
      | Some AbsPath =>
          match digestFile SM FID with
          | None => false
          | Some Dig =>
              match ShardVersionsSnapshot !! AbsPath with
              | Some D =>
                  if (SV_Digest D =? Dig)%N && negb (SV_HadErrors D)
                  then false
                  else true
              | None => true
              end
          end
      end
  end.

(** [It.second.Flags |= IncludeGraphNode::SourceFlag::HadErrors]. *)
Definition setHadErrors (IGN : IncludeGraphNode) : IncludeGraphNode :=
  {| Flags := N.lor (Flags IGN) SourceFlag_HadErrors; URI := URI IGN;
     IGN_Digest := IGN_Digest IGN; DirectIncludes := DirectIncludes IGN |}.

(** [index] returns an [llvm::Error]: [Some] message, or [None] for
    [llvm::Error::success()]. *)
Definition index (C : CompileCommand) : M (option Error) :=
  let AbsPath := getAbsolutePath C in
  match getBufferForFile AbsPath with
  | inl EC => ret (Some EC)
  | inr Buf =>
      let* ShardVersionsSnapshot := getShardVersions in
      match runFrontend C Buf (FileFilter ShardVersionsSnapshot) with
      | NoCompilerInvocation => ret (Some "Couldn't build compiler invocation")
      | NoCompilerInstance => ret (Some "Couldn't build compiler instance")
      | BeginSourceFileFailed => ret (Some "BeginSourceFile() failed")
      | ExecuteFailed Err => ret (Some Err)
      | Executed Syms Rs Rels Srcs hasDiagnostics hasUncompilableErrorOccurred =>
          assert (engaged Syms && engaged Rs && engaged Srcs) ;;;
          let HadErrors := hasDiagnostics && hasUncompilableErrorOccurred in
          let Srcs' :=
            if HadErrors
            then option_map (fun G : IncludeGraph => setHadErrors <$> G) Srcs
            else Srcs in
          let Index := {| Symbols := Syms; Refs := Rs; Relations := Rels;
                          Sources := Srcs'; Cmd := Some C |} in
          update AbsPath Index ShardVersionsSnapshot HadErrors ;;;
          emit (EvRebuilder indexedTU) ;;;
          ret None
      end
  end.

(** ** Project loading *)

(** [shardIsStale], lines 79-88. *)
Definition shardIsStale (LS : LoadedShard) : M bool :=
  match getBufferForFile (AbsolutePath LS) with
  | inl EC =>
      elog "Background-index: Couldn't read {0} to validate stored index: {1}"
           [AbsolutePath LS; EC] ;;;
      ret false
  | inr Buf => ret (negb (digest Buf =? LS_Digest LS)%N)
  end.

(** The body of the loop under the lock, lines 351-372. *)
Definition loadShard (LS : LoadedShard) (LoadedShards : nat) : M nat :=
  match LS_Shard LS with
  | None => ret LoadedShards
  | Some Shard =>
      let SV := {| SV_Digest := LS_Digest LS; SV_HadErrors := LS_HadErrors LS |} in
      let* SVs := getShardVersions in
      putShardVersions (<[AbsolutePath LS := SV]> SVs) ;;;
      emit (EvSetShardVersion (AbsolutePath LS) SV) ;;;
      emit (EvIndexedSymbolsUpdate (AbsolutePath LS) (Symbols Shard)
              (Refs Shard) (Relations Shard) (CountReferences LS)) ;;;
      ret (S LoadedShards)
  end.

Fixpoint loadShards (Result : list LoadedShard) (LoadedShards : nat) : M nat :=
  match Result with
  | [] => ret LoadedShards
  | LS :: Rest => let* N := loadShard LS LoadedShards in loadShards Rest N
  end.

(** The loop of lines 381-393 filling [TUsToIndex]. *)
Fixpoint collectTUsToIndex (Result : list LoadedShard)
    (TUsToIndex : gset string) : M (gset string) :=
  match Result with
  | [] => ret TUsToIndex
  | LS :: Rest =>
      let* Stale := shardIsStale LS in
      if negb Stale then collectTUsToIndex Rest TUsToIndex
      else
        let TUForFile := DependentTU LS in
        assert (negb (bool_decide (TUForFile = EmptyString))) ;;;
        collectTUsToIndex Rest ({[TUForFile]} ∪ TUsToIndex)
  end.

(** The loop of lines 395-400. *)
Fixpoint collectCommands (TUs : list string)
    (NeedsReIndexing : list CompileCommand) : list CompileCommand :=
  match TUs with
  | [] => NeedsReIndexing
  | TU :: Rest =>
      match getCompileCommand TU with
      | None => collectCommands Rest NeedsReIndexing
      | Some C => collectCommands Rest (NeedsReIndexing ++ [C])
      end
  end.

Definition loadProject (MainFiles : list string) : M (list CompileCommand) :=
  emit (EvRebuilder startLoading) ;;;
  let* Result := (fun st => Some (loadIndexShards MainFiles (IndexStorage st), st)) in
  let* LoadedShards := loadShards Result 0 in
  emit (EvRebuilder (loadedShard LoadedShards)) ;;;
  emit (EvRebuilder doneLoading) ;;;
  let* TUsToIndex := collectTUsToIndex Result ∅ in
  ret (collectCommands (elements TUsToIndex) []).

(** ** Tasks and boosting *)

(** [filenameWithoutExtension], lines 146-149; [drop_back(N)] keeps the first
    [size() - N] characters. *)
Definition filenameWithoutExtension (Path : string) : string :=
  let Path := path_filename Path in
  String.substring 0 (String.length Path - String.length (path_extension Path)) Path.

(** [indexFileTask], lines 151-163. *)
Definition indexFileTask (C : CompileCommand) : Task :=
  let T := Task_new (RunIndex C) in
  let T := Task_set_QueuePri IndexFile T in
  Task_set_Tag (filenameWithoutExtension (Filename C)) T.

(** [boostRelated], lines 165-168. *)
Definition boostRelated (Path : string) : M unit :=
  fun st =>
    if isHeaderFile Path
    then Some (tt, {| ShardVersions := ShardVersions st;
                      Queue := BackgroundQueue_boost
                                 (filenameWithoutExtension Path)
                                 IndexBoostedFile (Queue st);
                      IndexStorage := IndexStorage st;
                      Trace := Trace st |})
    else Some (tt, st).

(** The lambda of [indexFileTask], lines 153-159: an error of [index] is
    logged and goes no further. *)
Definition runIndexFile (C : CompileCommand) : M unit :=
  let FileName := Filename C in
  let* Err := index C in
  match Err with
  | Some E => elog "Indexing {0} failed: {1}" [FileName; E]
  | None => ret tt
  end.

(** [changedFilesTask], lines 122-144: the task itself. *)
Definition changedFilesTask (ChangedFiles : list string) : Task :=
  let T := Task_new (RunChangedFiles ChangedFiles) in
  let T := Task_set_QueuePri LoadShards T in
  Task_set_ThreadPri Default T.

(** The lambda of [changedFilesTask], lines 124-139, up to its last
    statement: the value is the vector [Tasks] it hands to [Queue.append].
    [Shuffle] is the [std::shuffle] of line 132 with its random source. *)
Definition runChangedFiles
    (Shuffle : list CompileCommand -> list CompileCommand)
    (ChangedFiles : list string) : M (list Task) :=
  let* NeedsReIndexing := loadProject ChangedFiles in
  let NeedsReIndexing := Shuffle NeedsReIndexing in
  ret (map indexFileTask NeedsReIndexing).

End Background.

(** ** A small concrete project

    One translation unit [/src/a.cpp] including [/src/a.h], a storage that
    can be switched to fail, and POSIX path functions.  The examples and the
    concrete instances of the general theorems run on it. *)
Module Demo.

#[export] Instance slabs : Slabs :=
  {| SymbolSlab := list string; RefSlab := list string;
     RelationSlab := list string |}.

Fixpoint contains (C : ascii) (S : string) : bool :=
  match S with
  | EmptyString => false
  | String D R => Ascii.eqb C D || contains C R
  end.

Fixpoint filename (S : string) : string :=
  match S with
  | EmptyString => EmptyString
  | String C R =>
      if contains "/" R then filename R
      else if Ascii.eqb C "/" then R else S
  end.

Fixpoint from_last_dot (S : string) : string :=
  match S with
  | EmptyString => EmptyString
  | String C R =>
      if contains "." R then from_last_dot R
      else if Ascii.eqb C "." then S else EmptyString
  end.

Definition extension (S : string) : string :=
  let F := filename S in
  if String.eqb F "." || String.eqb F ".." then EmptyString else from_last_dot F.

Definition strip_scheme (U : string) : Error + string :=
  if String.prefix "file://" U
  then inr (String.substring 7 (String.length U - 7) U)
  else inl "unsupported scheme".

Definition files : list (string * string) :=
  [("/src/a.cpp", "#include <a.h>"); ("/src/a.h", "int a;");
   ("/src/b.cpp", "int b;")].

Definition readFile (P : string) : Error + string :=
  match list_find (fun E => String.eqb E.1 P) files with
  | Some (_, (_, Content)) => inr Content
  | None => inl "No such file or directory"
  end.

Definition toyDigest (S : string) : N := N.of_nat (String.length S).

Definition acpp : CompileCommand :=
  {| Directory := "/src"; Filename := "/src/a.cpp";
     CommandLine := ["clang"; "/src/a.cpp"]; Output := EmptyString |}.

Definition broken : CompileCommand :=
  {| Directory := "/src"; Filename := "/src/a.cpp";
     CommandLine := ["clang"; "-DBROKEN"; "/src/a.cpp"]; Output := EmptyString |}.

Definition node (U : string) (D : N) : IncludeGraphNode :=
  {| Flags := 0; URI := U; IGN_Digest := D; DirectIncludes := [] |}.

Definition graph : gmap string IncludeGraphNode :=
  {[ "file:///src/a.cpp" := node "file:///src/a.cpp" 14;
     "file:///src/a.h" := node "file:///src/a.h" 6 ]}.

Record Disk := { writable : bool; written : list string }.

#[export] Instance env : Collaborators :=
  {| digest := toyDigest;
     URI_resolve := fun U _ => strip_scheme U;
     getShard := fun SI P =>
       {| Symbols := Some [P]; Refs := Some []; Relations := Some [];
          Sources := None; Cmd := Cmd (FSI_Index SI) |};
     Storage := Disk;
     storeShard := fun P _ D =>
       if writable D
       then (None, {| writable := true; written := written D ++ [P] |})
       else (Some "Read-only file system", D);
     loadIndexShards := fun MainFiles _ =>
       flat_map (fun Main =>
         [ {| AbsolutePath := Main; LS_Digest := 14; CountReferences := true;
              LS_HadErrors := false; DependentTU := Main; LS_Shard := None |};
           {| AbsolutePath := "/src/a.h"; LS_Digest := 5;
              CountReferences := false; LS_HadErrors := false;
              DependentTU := Main; LS_Shard := None |} ]) MainFiles;
     getBufferForFile := readFile;
     getCompileCommand := fun P =>
       if String.eqb P "/src/a.cpp" then Some acpp else None;
     SourceManager := unit;
     FileID := string;
     FileEntry := string;
     getFileEntryForID := fun _ FID =>
       if String.eqb FID EmptyString then None else Some FID;
     getCanonicalPath := fun F _ => Some F;
     digestFile := fun _ FID =>
       match readFile FID with inr B => Some (toyDigest B) | inl _ => None end;
     runFrontend := fun C _ _ =>
       if bool_decide (CommandLine C = []) then NoCompilerInvocation
       else Executed (Some ["a"]) (Some []) (Some []) (Some graph)
              true (bool_decide ("-DBROKEN" ∈ CommandLine C));
     isHeaderFile := fun P => String.eqb (extension P) ".h";
     path_is_absolute := String.prefix "/";
     path_append_remove_dots := fun D F => (D ++ "/" ++ F)%string;
     path_filename := filename;
     path_extension := extension;
     SourceFlag_HadErrors := 2;
     Task_new := fun R =>
       {| Run := R; ThreadPri := Background; QueuePri := IndexFile;
          Tag := EmptyString |} |}.

Definition start (Table : gmap string ShardVersion) (W : bool) : BackgroundIndex :=
  {| ShardVersions := Table; Queue := [];
     IndexStorage := {| writable := W; written := [] |}; Trace := [] |}.

(** The result of a clean run on [/src/a.cpp], as [index] hands it to
    [update]. *)
Definition result : IndexFileIn :=
  {| Symbols := Some ["a"]; Refs := Some []; Relations := Some [];
     Sources := Some graph; Cmd := Some acpp |}.

(** Both files recorded with their current digests, the header by a run
    that had errors. *)
Definition brokenHeader : gmap string ShardVersion :=
  {[ "/src/a.cpp" := {| SV_Digest := 14; SV_HadErrors := false |};
     "/src/a.h" := {| SV_Digest := 6; SV_HadErrors := true |} ]}.

(** The main file recorded with its current digest, the header with an
    older one. *)
Definition staleHeader : gmap string ShardVersion :=
  {[ "/src/a.cpp" := {| SV_Digest := 14; SV_HadErrors := false |};
     "/src/a.h" := {| SV_Digest := 5; SV_HadErrors := false |} ]}.

Definition foo : CompileCommand :=
  {| Directory := "/proj/lib"; Filename := "/proj/lib/foo.cpp";
     CommandLine := ["clang"; "/proj/lib/foo.cpp"]; Output := EmptyString |}.

Definition bar : CompileCommand :=
  {| Directory := "/proj/lib"; Filename := "/proj/lib/bar.cpp";
     CommandLine := ["clang"; "/proj/lib/bar.cpp"]; Output := EmptyString |}.

(** The source manager of the one compilation, and the files it knows by
    their paths. *)
Definition sm : @SourceManager _ env := tt.

Definition fid (P : string) : @FileID _ env := P.

Definition noargs : CompileCommand :=
  {| Directory := "/src"; Filename := "/src/a.cpp"; CommandLine := [];
     Output := EmptyString |}.

Definition pending : BackgroundIndex :=
  {| ShardVersions := ∅; Queue := [indexFileTask foo; indexFileTask bar];
     IndexStorage := {| writable := true; written := [] |}; Trace := [] |}.

Definition gone : LoadedShard :=
  {| AbsolutePath := "/src/gone.h"; LS_Digest := 3; CountReferences := false;
     LS_HadErrors := false; DependentTU := "/src/a.cpp"; LS_Shard := None |}.

End Demo.


(** ** A project restored from storage

    The same project, with a loader that finds three shards: the header's
    with its current digest, the main file's with an older one, and one that
    storage could not provide. *)
Module Restored.
Import Demo.

Definition header : @LoadedShard Demo.slabs :=
  {| AbsolutePath := "/src/a.h"; LS_Digest := 6; CountReferences := false;
     LS_HadErrors := false; DependentTU := "/src/a.cpp";
     LS_Shard := Some {| Symbols := Some ["a"]; Refs := None;
                         Relations := None; Sources := None;
                         Cmd := None |} |}.

Definition others : list (@LoadedShard Demo.slabs) :=
  [ {| AbsolutePath := "/src/a.cpp"; LS_Digest := 13; CountReferences := true;
       LS_HadErrors := false; DependentTU := "/src/a.cpp";
       LS_Shard := Some {| Symbols := Some ["main"]; Refs := Some [];
                           Relations := None; Sources := None;
                           Cmd := Some Demo.acpp |} |};
    {| AbsolutePath := "/src/b.cpp"; LS_Digest := 0; CountReferences := true;
       LS_HadErrors := false; DependentTU := "/src/b.cpp";
       LS_Shard := None |} ].

Definition shards : list (@LoadedShard Demo.slabs) := header :: others.

#[export] Instance env : @Collaborators Demo.slabs :=
  {| digest := @digest _ Demo.env;
     URI_resolve := @URI_resolve _ Demo.env;
     getShard := @getShard _ Demo.env;
     Storage := @Storage _ Demo.env;
     storeShard := @storeShard _ Demo.env;
     loadIndexShards := fun _ _ => shards;
     getBufferForFile := @getBufferForFile _ Demo.env;
     getCompileCommand := @getCompileCommand _ Demo.env;
     SourceManager := @SourceManager _ Demo.env;
     FileID := @FileID _ Demo.env;
     FileEntry := @FileEntry _ Demo.env;
     getFileEntryForID := @getFileEntryForID _ Demo.env;
     getCanonicalPath := @getCanonicalPath _ Demo.env;
     digestFile := @digestFile _ Demo.env;
     runFrontend := @runFrontend _ Demo.env;
     isHeaderFile := @isHeaderFile _ Demo.env;
     path_is_absolute := @path_is_absolute _ Demo.env;
     path_append_remove_dots := @path_append_remove_dots _ Demo.env;
     path_filename := @path_filename _ Demo.env;
     path_extension := @path_extension _ Demo.env;
     SourceFlag_HadErrors := @SourceFlag_HadErrors _ Demo.env;
     Task_new := @Task_new _ Demo.env |}.

Definition start (Table : gmap string ShardVersion)
    : @BackgroundIndex _ env :=
  {| ShardVersions := Table; Queue := [];
     IndexStorage := {| Demo.writable := true; Demo.written := [] |};
     Trace := [] |}.

(** The events of loading the three shards. *)
Definition loadedTrace : list (@Event Demo.slabs) :=
  [EvRebuilder startLoading;
   EvSetShardVersion "/src/a.h" {| SV_Digest := 6; SV_HadErrors := false |};
   EvIndexedSymbolsUpdate "/src/a.h" (Some ["a"]) None None false;
   EvSetShardVersion "/src/a.cpp" {| SV_Digest := 13; SV_HadErrors := false |};
   EvIndexedSymbolsUpdate "/src/a.cpp" (Some ["main"]) (Some []) None true;
   EvRebuilder (loadedShard 2); EvRebuilder doneLoading].

(** The header as the analysis of [/src/a.cpp] sees it after the load. *)
Definition headerSources : gmap string IncludeGraphNode :=
  {[ "file:///src/a.h" := Demo.node "file:///src/a.h" 6 ]}.

Definition headerOnly : IndexFileIn :=
  {| Symbols := Some ["a"]; Refs := Some []; Relations := Some [];
     Sources := Some headerSources; Cmd := Some Demo.acpp |}.

End Restored.

(** Both files of the first project recorded with their current digests by
    clean runs. *)
Definition currentTable : gmap string ShardVersion :=
  {[ "/src/a.cpp" := {| SV_Digest := 14; SV_HadErrors := false |};
     "/src/a.h" := {| SV_Digest := 6; SV_HadErrors := false |} ]}.

(** The header recorded with an older digest by a run that had errors; the
    main file not recorded. *)
Definition erroneousStaleHeader : gmap string ShardVersion :=
  {[ "/src/a.h" := {| SV_Digest := 5; SV_HadErrors := true |} ]}.

(** ** Reading the trace *)

Section TraceDefs.
Context `{Slabs}.

(** The file an event is about: the shard identifier of a storage write,
    the key of a version-table write or of a [FileSymbols] update. *)
Definition event_path (E : Event) : option string :=
  match E with
  | EvStoreShard P _ _ => Some P
  | EvSetShardVersion P _ => Some P
  | EvIndexedSymbolsUpdate P _ _ _ _ => Some P
  | EvElog _ _ | EvRebuilder _ => None
  end.

(** A call to [storeShard] for [P], whatever its result. *)
Definition is_store (P : string) (E : Event) : bool :=
  match E with
  | EvStoreShard Q _ _ => bool_decide (Q = P)
  | _ => false
  end.

(** A write of the version-table entry of [P]. *)
Definition is_table_write (P : string) (E : Event) : bool :=
  match E with
  | EvSetShardVersion Q _ => bool_decide (Q = P)
  | _ => false
  end.

(** A merge of a shard of [P] into the composite index. *)
Definition is_merge (P : string) (E : Event) : bool :=
  match E with
  | EvIndexedSymbolsUpdate Q _ _ _ _ => bool_decide (Q = P)
  | _ => false
  end.

(** In a trace, every table write and every merge for a file comes after a
    storage write for the same file. *)
Definition persist_before_merge (Tr : list Event) : Prop :=
  ∀ i E P, Tr !! i = Some E ->
    is_table_write P E || is_merge P E = true ->
    ∃ j E', (j < i)%nat ∧ Tr !! j = Some E' ∧ is_store P E' = true.

(** Every error returned by a storage write is followed by its log line. *)
Definition store_errors_logged (Tr : list Event) : Prop :=
  ∀ P IF E, EvStoreShard P IF (Some E) ∈ Tr ->
    EvElog "Failed to write background-index shard for file {0}: {1}" [P; E]
      ∈ Tr.

End TraceDefs.

Section Properties.
Context `{Collaborators}.

Implicit Types (st : BackgroundIndex) (P MainFile : string)
  (HadErrors : bool) (Snapshot : gmap string ShardVersion).

(** *** The guard of line 219, read on the live table *)

Definition skipsLocked (SVs : gmap string ShardVersion) P (Hash : FileDigest)
    HadErrors : bool :=
  match SVs !! P with
  | Some SV => (SV_Digest SV =? Hash)%N && SV_HadErrors SV && negb HadErrors
  | None => false
  end.

(** The shard of [P] as lines 198-203 leave it. *)
Definition shardFor MainFile (ShardedIndex : FileShardedIndex) P : IndexFileIn :=
  if bool_decide (P ≠ MainFile) then Cmd_reset (getShard ShardedIndex P)
  else getShard ShardedIndex P.

(** [update] runs to completion on an index whose sources are set and
    resolve, and whose shards carry their three slabs. *)
Definition shards_engaged (ShardedIndex : FileShardedIndex) : Prop :=
  ∀ P, engaged (Symbols (getShard ShardedIndex P))
       && engaged (Refs (getShard ShardedIndex P))
       && engaged (Relations (getShard ShardedIndex P)) = true.

Definition resolves MainFile (IGN : IncludeGraphNode) : bool :=
  match URI_resolve (URI IGN) MainFile with
  | inr _ => true
  | inl _ => false
  end.

Definition sources_resolve MainFile (Index : IndexFileIn) : bool :=
  match Sources Index with
  | Some Srcs => forallb (fun E => resolves MainFile E.2) (map_to_list Srcs)
  | None => false
  end.

(** The files [update] selects, lines 177-190. *)
Definition filesToUpdate MainFile (Index : IndexFileIn) Snapshot HadErrors
    : option (gmap string FileDigest) :=
  match Sources Index with
  | Some Srcs =>
      collectFilesToUpdate MainFile Snapshot HadErrors (map_to_list Srcs) ∅
  | None => None
  end.

(** The log line of lines 208-210, if the storage write failed. *)
Definition store_log P (Err : option Error) : list Event :=
  match Err with
  | Some E =>
      [EvElog "Failed to write background-index shard for file {0}: {1}"
         [P; E]]
  | None => []
  end.

(** What a storage write and a merge made for the sharded index [SI] carry:
    the shard as lines 198-203 leave it, and its three slabs. *)
Definition shard_event_ok MainFile (SI : FileShardedIndex) (E : Event) : Prop :=
  match E with
  | EvStoreShard P IF _ => IF = shardFor MainFile SI P
  | EvIndexedSymbolsUpdate P Syms Rs Rels B =>
      Syms = Symbols (getShard SI P) ∧ Rs = Refs (getShard SI P)
      ∧ Rels = Relations (getShard SI P) ∧ B = bool_decide (P = MainFile)
  | _ => True
  end.

(** The events that change what is held in memory: version-table writes and
    merges into the composite index. *)
Definition is_memory_event (E : Event) : bool :=
  match E with
  | EvSetShardVersion _ _ | EvIndexedSymbolsUpdate _ _ _ _ _ => true
  | _ => false
  end.

Definition memory_events (Tr : list Event) : list Event :=
  filter (fun E => is_memory_event E = true) Tr.

(** The version table after the table writes of a trace. *)
Definition apply_table_writes (Tr : list Event)
    (SVs : gmap string ShardVersion) : gmap string ShardVersion :=
  foldl (fun m E => match E with
                    | EvSetShardVersion P SV => <[P := SV]> m
                    | _ => m
                    end) SVs Tr.

(** The error [index] returns when the front end produces no result. *)
Definition FrontendRun_failure (R : FrontendRun) : option Error :=
  match R with
  | NoCompilerInvocation => Some "Couldn't build compiler invocation"
  | NoCompilerInstance => Some "Couldn't build compiler instance"
  | BeginSourceFileFailed => Some "BeginSourceFile() failed"
  | ExecuteFailed Err => Some Err
  | Executed _ _ _ _ _ _ => None
  end.

(** Following the spec (section 4.4, step 3): a shard is stale when the live
    file at its recorded path is readable and its digest differs from the
    recorded one. *)
Definition isStale_spec (LS : LoadedShard) : bool :=
  match getBufferForFile (AbsolutePath LS) with
  | inr Buf => bool_decide (digest Buf ≠ LS_Digest LS)
  | inl _ => false
  end.

(** Following the spec (section 4.4, step 4): the compile commands, where
    the compilation database has one, of the distinct [DependentTU] values of
    the stale shards. *)
Definition worklist_spec (Result : list LoadedShard) : list CompileCommand :=
  omap getCompileCommand
    (remove_dups
       (DependentTU <$> filter (fun LS => isStale_spec LS = true) Result)).

(** The log line of [shardIsStale] for an unreadable file. *)
Definition unreadable_log (LS : LoadedShard) (EC : Error) : Event :=
  EvElog "Background-index: Couldn't read {0} to validate stored index: {1}"
    [AbsolutePath LS; EC].

Definition log_event (E : Event) (st : BackgroundIndex) : BackgroundIndex :=
  {| ShardVersions := ShardVersions st; Queue := Queue st;
     IndexStorage := IndexStorage st; Trace := Trace st ++ [E] |}.

(** The shard identifiers of the storage writes of a trace, in order. *)
Definition stored_paths (Tr : list Event) : list string :=
  omap (fun E => match E with
                 | EvStoreShard P _ _ => Some P
                 | _ => None
                 end) Tr.

(** A source of the include graph that [update] has to act on: it resolves
    to [P] and its digest or error state differs from the snapshot. *)
Definition needs MainFile (Index : IndexFileIn) Snapshot HadErrors P : Prop :=
  ∃ Srcs U IGN, Sources Index = Some Srcs ∧ Srcs !! U = Some IGN
    ∧ URI_resolve (URI IGN) MainFile = inr P
    ∧ needsUpdate Snapshot P IGN HadErrors = true.

(** No source of the include graph differs from the snapshot. *)
Definition up_to_date MainFile (Srcs : gmap string IncludeGraphNode)
    Snapshot HadErrors : Prop :=
  ∀ U IGN, Srcs !! U = Some IGN ->
    ∃ P, URI_resolve (URI IGN) MainFile = inr P
         ∧ needsUpdate Snapshot P IGN HadErrors = false.

(** Sources that resolve to the same path were seen with the same digest. *)
Definition digests_agree MainFile (Srcs : gmap string IncludeGraphNode) : Prop :=
  ∀ U1 U2 I1 I2 P, Srcs !! U1 = Some I1 -> Srcs !! U2 = Some I2 ->
    URI_resolve (URI I1) MainFile = inr P ->
    URI_resolve (URI I2) MainFile = inr P ->
    IGN_Digest I1 = IGN_Digest I2.

(** What the loop of lines 351-372 emits for one loaded shard. *)
Definition loadEvents (LS : LoadedShard) : list Event :=
  match LS_Shard LS with
  | None => []
  | Some Shard =>
      [EvSetShardVersion (AbsolutePath LS)
         {| SV_Digest := LS_Digest LS; SV_HadErrors := LS_HadErrors LS |};
       EvIndexedSymbolsUpdate (AbsolutePath LS) (Symbols Shard) (Refs Shard)
         (Relations Shard) (CountReferences LS)]
  end.

(** What the staleness check of one loaded shard logs. *)
Definition staleLogs (LS : LoadedShard) : list Event :=
  match getBufferForFile (AbsolutePath LS) with
  | inl EC => [unreadable_log LS EC]
  | inr _ => []
  end.

(** The index that [index] hands to [update], lines 312-330: the slabs of the
    front end, the command, and the sources flagged when the run had
    errors. *)
Definition indexedResult (C : CompileCommand) (Syms : SymbolSlab)
    (Rs : RefSlab) (Rels : option RelationSlab)
    (Srcs : gmap string IncludeGraphNode) HadErrors : IndexFileIn :=
  {| Symbols := Some Syms; Refs := Some Rs; Relations := Rels;
     Sources := Some (if HadErrors then setHadErrors <$> Srcs else Srcs);
     Cmd := Some C |}.

(** The version table after the loop of lines 351-372 over the loaded
    shards: each shard that storage could provide overwrites the entry of
    its path. *)
Definition loadedTable (Result : list LoadedShard)
    (SVs : gmap string ShardVersion) : gmap string ShardVersion :=
  foldl (fun m LS =>
           if engaged (LS_Shard LS)
           then <[AbsolutePath LS := {| SV_Digest := LS_Digest LS;
                                        SV_HadErrors := LS_HadErrors LS |}]> m
           else m) SVs Result.

(** Membership in explicit lists of events. *)
Local Ltac elem_absurd Hin :=
  repeat (apply elem_of_cons in Hin as [Hin|Hin]; [discriminate Hin|]);
  by apply elem_of_nil in Hin.

Local Ltac solve_elem :=
  repeat (rewrite ?elem_of_app, ?elem_of_cons); intuition (auto; congruence).

(** *** Monad and loop lemmas *)

Lemma bind_Some {A B} (c : M A) (k : A -> M B) st b st' :
  bind c k st = Some (b, st') ->
  ∃ a st1, c st = Some (a, st1) ∧ k a st1 = Some (b, st').
Proof.
  unfold bind. destruct (c st) as [[a st1]|]; [|discriminate].
  intros Hk. by exists a, st1.
Qed.

Lemma bind_run {A B} (c : M A) (k : A -> M B) st a st1 :
  c st = Some (a, st1) -> bind c k st = k a st1.
Proof. unfold bind. by intros ->. Qed.

Lemma forEach_app {A} (Body : A -> M unit) (Xs Ys : list A) st :
  forEach Body (Xs ++ Ys) st
  = bind (forEach Body Xs) (fun _ => forEach Body Ys) st.
Proof.
  revert st. induction Xs as [|X Xs IH]; intros st; simpl.
  - reflexivity.
  - unfold bind in *. destruct (Body X st) as [[[] st1]|]; [|reflexivity].
    apply IH.
Qed.

(** A property of the appended events that holds of the empty list and is
    kept by concatenation holds of a whole loop when it holds of each
    iteration. *)
Lemma forEach_trace {A} (Q : list Event -> Prop) (Body : A -> M unit) Xs :
  Q [] ->
  (∀ a b, Q a -> Q b -> Q (a ++ b)) ->
  (∀ X st st', X ∈ Xs -> Body X st = Some (tt, st') ->
     ∃ new, Trace st' = Trace st ++ new ∧ Q new) ->
  ∀ st st', forEach Body Xs st = Some (tt, st') ->
    ∃ new, Trace st' = Trace st ++ new ∧ Q new.
Proof.
  intros Hnil Happ. induction Xs as [|X Xs IH]; intros Hbody st st' Hrun.
  - simpl in Hrun. injection Hrun as <-. exists []. by rewrite app_nil_r.
  - simpl in Hrun. apply bind_Some in Hrun as ([] & st1 & HX & Hrest).
    destruct (Hbody X st st1) as (n1 & Ht1 & Hq1); [set_solver | done |].
    destruct (IH (fun Y s s' HY => Hbody Y s s' (list_elem_of_further _ _ _ HY))
                 st1 st' Hrest) as (n2 & Ht2 & Hq2).
    exists (n1 ++ n2). split; [|by apply Happ].
    by rewrite Ht2, Ht1, app_assoc.
Qed.

Lemma forEach_total {A} (Body : A -> M unit) Xs :
  (∀ X st, X ∈ Xs -> ∃ st', Body X st = Some (tt, st')) ->
  ∀ st, ∃ st', forEach Body Xs st = Some (tt, st').
Proof.
  induction Xs as [|X Xs IH]; intros Hbody st; simpl.
  - by eexists.
  - destruct (Hbody X st) as (st1 & HX); [set_solver|].
    unfold bind. rewrite HX. apply IH. intros Y s HY. apply Hbody. set_solver.
Qed.

(** *** One iteration of the update loop *)

Lemma updateFile_inv MainFile SI HadErrors P Hash st st' :
  updateFile MainFile SI HadErrors (P, Hash) st = Some (tt, st') ->
  let IF := shardFor MainFile SI P in
  let SV' := {| SV_Digest := Hash; SV_HadErrors := HadErrors |} in
  ∃ Err merge,
    (storeShard P IF (IndexStorage st)).1 = Err ∧
    IndexStorage st' = (storeShard P IF (IndexStorage st)).2 ∧
    Queue st' = Queue st ∧
    Trace st' = Trace st ++ EvStoreShard P IF Err :: store_log P Err ++ merge ∧
    ((skipsLocked (ShardVersions st) P Hash HadErrors = true ∧ merge = []
      ∧ ShardVersions st' = ShardVersions st)
     ∨ (skipsLocked (ShardVersions st) P Hash HadErrors = false
        ∧ ∃ S R L, Symbols IF = Some S ∧ Refs IF = Some R
            ∧ Relations IF = Some L
            ∧ merge = [EvSetShardVersion P SV';
                       EvIndexedSymbolsUpdate P (Some S) (Some R) (Some L)
                         (bool_decide (P = MainFile))]
            ∧ ShardVersions st' = <[P := SV']> (ShardVersions st))).
Proof.
  unfold updateFile, shardFor, skipsLocked, updateLocked, callStoreShard.
  cbn [fst snd]. set (IF := if bool_decide (P ≠ MainFile) then _ else _).
  unfold bind, getShardVersions, putShardVersions, try_emplace, emit, elog,
    emit, ret, deref, abort; cbn.
  destruct (storeShard P IF (IndexStorage st)) as [Err Sto] eqn:Hsto.
  intros Hrun. exists Err.
  destruct Err as [E|]; cbn in Hrun;
    destruct (ShardVersions st !! P) as [SV|] eqn:HSV; cbn in Hrun.
  all: try destruct ((SV_Digest SV =? Hash)%N && SV_HadErrors SV
                     && negb HadErrors) eqn:Hskip; cbn in Hrun.
  all: try (destruct (Symbols IF) as [S|]; cbn in Hrun; [|discriminate];
            destruct (Refs IF) as [R|]; cbn in Hrun; [|discriminate];
            destruct (Relations IF) as [L|]; cbn in Hrun; [|discriminate]).
  all: injection Hrun as <-; cbn.
  all: first
    [ exists []; split_and!;
      [ reflexivity | reflexivity | reflexivity
      | by rewrite <- ?app_assoc
      | left; split_and!; reflexivity ]
    | eexists [_; _]; split_and!;
      [ reflexivity | reflexivity | reflexivity
      | by rewrite <- ?app_assoc
      | right; split; [reflexivity|]; exists S, R, L; split_and!;
        try reflexivity; by rewrite ?insert_insert_eq ] ].
Qed.

Lemma updateFile_total MainFile SI HadErrors X st :
  shards_engaged SI ->
  ∃ st', updateFile MainFile SI HadErrors X st = Some (tt, st').
Proof.
  intros Heng. specialize (Heng X.1).
  assert (∃ S R L, Symbols (shardFor MainFile SI X.1) = Some S
                   ∧ Refs (shardFor MainFile SI X.1) = Some R
                   ∧ Relations (shardFor MainFile SI X.1) = Some L)
    as (S & R & L & HS & HR & HL).
  { unfold shardFor. case_bool_decide; cbn;
      destruct (Symbols (getShard SI X.1)), (Refs (getShard SI X.1)),
        (Relations (getShard SI X.1)); try discriminate; eauto 10. }
  unfold updateFile, shardFor in *. unfold updateLocked, callStoreShard.
  set (IF := if bool_decide (X.1 ≠ MainFile) then _ else _) in *.
  unfold bind, getShardVersions, putShardVersions, try_emplace, emit, elog,
    emit, ret; cbn.
  destruct (storeShard X.1 IF (IndexStorage st)) as [[E|] Sto]; cbn;
    destruct (ShardVersions st !! X.1) as [SV|]; cbn;
    try destruct ((SV_Digest SV =? X.2)%N && SV_HadErrors SV
                  && negb HadErrors); cbn;
    rewrite ?HS, ?HR, ?HL; cbn; eauto.
Qed.

(** An iteration for one file leaves the entries of the other files alone
    and emits no event about them. *)
Lemma updateFile_frame MainFile SI HadErrors P Hash st st' Q :
  updateFile MainFile SI HadErrors (P, Hash) st = Some (tt, st') ->
  Q ≠ P ->
  ShardVersions st' !! Q = ShardVersions st !! Q
  ∧ ∃ new, Trace st' = Trace st ++ new
           ∧ Forall (fun E => event_path E ≠ Some Q) new.
Proof.
  intros Hrun HQ. apply updateFile_inv in Hrun as
    (Err & merge & _ & _ & _ & Htr & Hcase).
  assert (Forall (fun E => event_path E ≠ Some Q) (store_log P Err)) as Hlog.
  { destruct Err; repeat constructor; cbn; congruence. }
  destruct Hcase as [(_ & -> & ->) | (_ & S & R & L & _ & _ & _ & -> & ->)].
  - split; [done|]. eexists; split; [exact Htr|].
    rewrite app_nil_r. constructor; [cbn; congruence | done].
  - split; [by rewrite lookup_insert_ne|]. eexists; split; [exact Htr|].
    constructor; [cbn; congruence|]. apply Forall_app; split; [done|].
    repeat constructor; cbn; congruence.
Qed.

Lemma event_path_other (P : string) (E : Event) :
  event_path E ≠ Some P ->
  is_store P E = false ∧ is_table_write P E = false ∧ is_merge P E = false.
Proof.
  destruct E; cbn; intros HP; split_and!; try reflexivity;
    apply bool_decide_eq_false; congruence.
Qed.

(** *** The whole update loop *)

(** Files that are not iterated over are not touched. *)
Lemma update_loop_outside MainFile SI HadErrors Files Q :
  Q ∉ Files.*1 ->
  ∀ st st', forEach (updateFile MainFile SI HadErrors) Files st = Some (tt, st') ->
    ShardVersions st' !! Q = ShardVersions st !! Q
    ∧ ∃ new, Trace st' = Trace st ++ new
             ∧ Forall (fun E => event_path E ≠ Some Q) new.
Proof.
  induction Files as [|[P Hash] Rest IH]; intros HQ st st' Hrun.
  - injection Hrun as <-. split; [done|]. exists []. by rewrite app_nil_r.
  - simpl in Hrun. apply bind_Some in Hrun as ([] & st1 & HX & Hrest).
    rewrite fmap_cons, not_elem_of_cons in HQ. destruct HQ as [HQP HQ].
    destruct (updateFile_frame _ _ _ _ _ _ _ Q HX HQP) as (Hsv1 & n1 & Ht1 & Hf1).
    destruct (IH HQ _ _ Hrest) as (Hsv2 & n2 & Ht2 & Hf2).
    split; [congruence|]. exists (n1 ++ n2). split.
    + by rewrite Ht2, Ht1, app_assoc.
    + by apply Forall_app.
Qed.

(** What the loop does for one of its files: the storage write always, the
    table write and the merge unless the guard of line 219 fires. *)
Lemma update_loop_file MainFile SI HadErrors Files P Hash :
  NoDup Files.*1 ->
  (P, Hash) ∈ Files ->
  ∀ st st', forEach (updateFile MainFile SI HadErrors) Files st = Some (tt, st') ->
    let IF := shardFor MainFile SI P in
    let SV' := {| SV_Digest := Hash; SV_HadErrors := HadErrors |} in
    ∃ new Err, Trace st' = Trace st ++ new
      ∧ EvStoreShard P IF Err ∈ new
      ∧ (skipsLocked (ShardVersions st) P Hash HadErrors = true ->
           ShardVersions st' !! P = ShardVersions st !! P
           ∧ Forall (fun E => is_table_write P E || is_merge P E = false) new)
      ∧ (skipsLocked (ShardVersions st) P Hash HadErrors = false ->
           ShardVersions st' !! P = Some SV'
           ∧ EvSetShardVersion P SV' ∈ new
           ∧ ∃ S R L, Symbols IF = Some S ∧ Refs IF = Some R
               ∧ Relations IF = Some L
               ∧ EvIndexedSymbolsUpdate P (Some S) (Some R) (Some L)
                   (bool_decide (P = MainFile)) ∈ new).
Proof.
  induction Files as [|[P0 Hash0] Rest IH]; intros Hnd Hin st st' Hrun;
    [by apply elem_of_nil in Hin|].
  simpl in Hrun. apply bind_Some in Hrun as ([] & st1 & HX & Hrest).
  rewrite fmap_cons in Hnd. apply NoDup_cons in Hnd as [Hfresh Hnd].
  simpl in Hfresh.
  apply elem_of_cons in Hin as [Heq | Hin].
  - (* the first iteration is the one for [P] *)
    assert (P0 = P) as -> by congruence.
    assert (Hash0 = Hash) as -> by congruence. clear Heq.
    destruct (update_loop_outside _ _ _ _ _ Hfresh _ _ Hrest)
      as (Hsv2 & n2 & Ht2 & Hf2).
    apply updateFile_inv in HX as (Err & merge & _ & _ & _ & Ht1 & Hcase).
    cbn zeta in *.
    exists ((EvStoreShard P (shardFor MainFile SI P) Err
             :: store_log P Err ++ merge) ++ n2), Err.
    split; [by rewrite Ht2, Ht1, app_assoc|].
    split; [solve_elem|].
    assert (Forall (fun E => is_table_write P E || is_merge P E = false) n2)
      as Hn2.
    { eapply Forall_impl; [exact Hf2|]. intros E HE.
      apply event_path_other in HE as (_ & -> & ->). done. }
    destruct Hcase as [(Hskip & -> & Hsv1)
                      | (Hskip & S & R & L & HS & HR & HL & -> & Hsv1)];
      (split; intros Hs; [|]); try congruence.
    + split; [congruence|]. rewrite app_nil_r.
      apply Forall_app; split; [|done]. constructor; [done|].
      destruct Err; repeat constructor.
    + rewrite Hsv2, Hsv1, lookup_insert_eq. split; [done|].
      split; [solve_elem|]. exists S, R, L. split_and!; try done. solve_elem.
  - (* the iteration for [P] comes later *)
    assert (P ≠ P0) as Hne.
    { intros ->. apply Hfresh. apply list_elem_of_fmap. by exists (P0, Hash). }
    destruct (updateFile_frame _ _ _ _ _ _ _ P HX Hne) as (Hsv1 & n1 & Ht1 & Hf1).
    destruct (IH Hnd Hin _ _ Hrest) as (n2 & Err & Ht2 & Hst & Hyes & Hno).
    assert (skipsLocked (ShardVersions st1) P Hash HadErrors
            = skipsLocked (ShardVersions st) P Hash HadErrors) as Hsk.
    { unfold skipsLocked. by rewrite Hsv1. }
    rewrite Hsk, Hsv1 in *.
    exists (n1 ++ n2), Err. split; [by rewrite Ht2, Ht1, app_assoc|].
    split; [solve_elem|]. split.
    + intros Hs. destruct (Hyes Hs) as [? Hf]. split; [done|].
      apply Forall_app; split; [|done]. eapply Forall_impl; [exact Hf1|].
      intros E HE. apply event_path_other in HE as (_ & -> & ->). done.
    + intros Hs. destruct (Hno Hs) as (? & ? & S & R & L & ? & ? & ? & ?).
      split; [done|]. split; [solve_elem|]. exists S, R, L.
      split_and!; try done. solve_elem.
Qed.

(** *** The selection of files, lines 177-190 *)

Lemma collect_total MainFile Snapshot HadErrors Nodes :
  forallb (fun E => resolves MainFile E.2) Nodes = true ->
  ∀ F0, ∃ F,
    collectFilesToUpdate MainFile Snapshot HadErrors Nodes F0 = Some F.
Proof.
  induction Nodes as [|[U IGN] Rest IH]; intros Hres F0; simpl.
  - by eexists.
  - simpl in Hres. apply andb_prop in Hres as [Hr Hres].
    unfold resolves in Hr.
    destruct (URI_resolve (URI IGN) MainFile) as [|AbsPath]; [discriminate|].
    apply IH, Hres.
Qed.

(** Every selected file is the resolved path of a source that needs an
    update, and is recorded with the digest of such a source. *)
Lemma collect_lookup MainFile Snapshot HadErrors Nodes :
  ∀ F0 F P D,
    collectFilesToUpdate MainFile Snapshot HadErrors Nodes F0 = Some F ->
    F !! P = Some D ->
    F0 !! P = Some D
    ∨ ∃ U IGN, (U, IGN) ∈ Nodes ∧ URI_resolve (URI IGN) MainFile = inr P
        ∧ needsUpdate Snapshot P IGN HadErrors = true ∧ IGN_Digest IGN = D.
Proof.
  induction Nodes as [|[U IGN] Rest IH]; intros F0 F P D Hrun HP; simpl in Hrun.
  - left. congruence.
  - destruct (URI_resolve (URI IGN) MainFile) as [|AbsPath] eqn:Hres;
      [discriminate|].
    destruct (IH _ _ _ _ Hrun HP) as [Hold | (U' & IGN' & Hin & ?)].
    + destruct (needsUpdate Snapshot AbsPath IGN HadErrors) eqn:Hneeds;
        [|by left].
      destruct (decide (AbsPath = P)) as [->|Hne].
      * rewrite lookup_insert_eq in Hold. right. exists U, IGN.
        split; [apply list_elem_of_here|]. split_and!; congruence.
      * rewrite lookup_insert_ne in Hold by done. by left.
    + right. exists U', IGN'. split; [by apply list_elem_of_further|done].
Qed.

(** Every source that needs an update has its resolved path selected. *)
Lemma collect_selects MainFile Snapshot HadErrors Nodes :
  ∀ F0 F P,
    collectFilesToUpdate MainFile Snapshot HadErrors Nodes F0 = Some F ->
    is_Some (F0 !! P)
    ∨ (∃ U IGN, (U, IGN) ∈ Nodes ∧ URI_resolve (URI IGN) MainFile = inr P
         ∧ needsUpdate Snapshot P IGN HadErrors = true) ->
    is_Some (F !! P).
Proof.
  induction Nodes as [|[U IGN] Rest IH]; intros F0 F P Hrun HP; simpl in Hrun.
  - destruct HP as [HP | (? & ? & Hin & _)]; [congruence|].
    by apply elem_of_nil in Hin.
  - destruct (URI_resolve (URI IGN) MainFile) as [|AbsPath] eqn:Hres;
      [discriminate|].
    apply (IH _ _ _ Hrun).
    destruct HP as [HP | (U' & IGN' & Hin & Hres' & Hneeds)].
    + left. destruct (needsUpdate Snapshot AbsPath IGN HadErrors); [|done].
      destruct (decide (AbsPath = P)) as [->|Hne].
      * rewrite lookup_insert_eq. by eexists.
      * by rewrite lookup_insert_ne.
    + apply elem_of_cons in Hin as [Heq | Hin].
      * left. assert (U' = U) as -> by congruence.
        assert (IGN' = IGN) as -> by congruence.
        assert (AbsPath = P) as -> by congruence.
        rewrite Hneeds, lookup_insert_eq. by eexists.
      * right. by exists U', IGN'.
Qed.

(** *** [update] as selection followed by the loop *)

Lemma update_inv MainFile Index Snapshot HadErrors st st' :
  update MainFile Index Snapshot HadErrors st = Some (tt, st') ->
  ∃ F, filesToUpdate MainFile Index Snapshot HadErrors = Some F
    ∧ forEach (updateFile MainFile
                 {| FSI_Index := Index; FSI_MainFile := MainFile |} HadErrors)
        (map_to_list F) st = Some (tt, st').
Proof.
  unfold update, filesToUpdate, bind, deref, ret, abort.
  destruct (Sources Index) as [Srcs|]; [|discriminate].
  destruct (collectFilesToUpdate _ _ _ _ _) as [F|]; [|discriminate].
  intros Hrun. by exists F.
Qed.

Lemma update_total MainFile Index Snapshot HadErrors st :
  sources_resolve MainFile Index = true ->
  shards_engaged {| FSI_Index := Index; FSI_MainFile := MainFile |} ->
  ∃ st', update MainFile Index Snapshot HadErrors st = Some (tt, st').
Proof.
  unfold sources_resolve, update, bind, deref, ret, abort.
  destruct (Sources Index) as [Srcs|]; [|discriminate]. intros Hres Heng.
  destruct (collect_total MainFile Snapshot HadErrors _ Hres ∅) as [F ->].
  apply forEach_total. intros X s _. by apply updateFile_total.
Qed.

Lemma filesToUpdate_lookup MainFile Index Snapshot HadErrors F P D :
  filesToUpdate MainFile Index Snapshot HadErrors = Some F ->
  F !! P = Some D ->
  ∃ Srcs U IGN, Sources Index = Some Srcs ∧ Srcs !! U = Some IGN
    ∧ URI_resolve (URI IGN) MainFile = inr P
    ∧ needsUpdate Snapshot P IGN HadErrors = true ∧ IGN_Digest IGN = D.
Proof.
  unfold filesToUpdate. destruct (Sources Index) as [Srcs|]; [|discriminate].
  intros Hrun HP.
  destruct (collect_lookup _ _ _ _ _ _ _ _ Hrun HP)
    as [Hold | (U & IGN & Hin & ?)]; [by rewrite lookup_empty in Hold|].
  exists Srcs, U, IGN. split; [done|]. by apply elem_of_map_to_list in Hin.
Qed.

Lemma filesToUpdate_selects MainFile Index Snapshot HadErrors F Srcs U IGN P :
  filesToUpdate MainFile Index Snapshot HadErrors = Some F ->
  Sources Index = Some Srcs -> Srcs !! U = Some IGN ->
  URI_resolve (URI IGN) MainFile = inr P ->
  needsUpdate Snapshot P IGN HadErrors = true ->
  is_Some (F !! P).
Proof.
  unfold filesToUpdate. intros Hrun HS HU Hres Hneeds. rewrite HS in Hrun.
  apply (collect_selects _ _ _ _ _ _ _ Hrun). right. exists U, IGN.
  split; [by apply elem_of_map_to_list|done].
Qed.

Lemma map_to_list_fst_lookup (F : gmap string FileDigest) P :
  P ∈ (map_to_list F).*1 <-> is_Some (F !! P).
Proof.
  rewrite list_elem_of_fmap. split.
  - intros ([Q D] & -> & Hin). apply elem_of_map_to_list in Hin. by eexists.
  - intros [D HD]. exists (P, D). split; [done|].
    by apply elem_of_map_to_list.
Qed.

(** *** Ordering of the events of an update *)

Lemma persist_before_merge_nil : persist_before_merge [].
Proof. intros i E P Hi. by rewrite lookup_nil in Hi. Qed.

Lemma persist_before_merge_app (a b : list Event) :
  persist_before_merge a -> persist_before_merge b ->
  persist_before_merge (a ++ b).
Proof.
  intros Ha Hb i E P Hi HE.
  destruct (decide (i < length a)%nat) as [Hlt|Hge].
  - rewrite lookup_app_l in Hi by done.
    destruct (Ha i E P Hi HE) as (j & E' & Hj & Hl & Hs).
    exists j, E'. split_and!; try done. rewrite lookup_app_l; [done|lia].
  - rewrite lookup_app_r in Hi by lia.
    destruct (Hb _ E P Hi HE) as (j & E' & Hj & Hl & Hs).
    exists (length a + j)%nat, E'. split_and!; [lia| |done].
    rewrite lookup_app_r by lia. by replace (length a + j - length a)%nat with j by lia.
Qed.

Lemma persist_before_merge_block P (IF : IndexFileIn) Err merge :
  Forall (fun E => event_path E = Some P) merge ->
  persist_before_merge (EvStoreShard P IF Err :: store_log P Err ++ merge).
Proof.
  intros Hmerge i E Q Hi HE. exists 0%nat, (EvStoreShard P IF Err).
  assert (event_path E = Some Q) as HQ.
  { destruct E; cbn in HE; rewrite ?orb_false_r in HE; try discriminate;
      apply bool_decide_eq_true in HE; by subst. }
  destruct i as [|i]; [simpl in Hi; injection Hi as <-; discriminate|].
  split; [lia|]. split; [done|]. simpl in Hi. cbn.
  apply bool_decide_eq_true.
  apply lookup_app_Some in Hi as [Hi | [_ Hi]].
  - destruct Err; simpl in Hi.
    + destruct i; simpl in Hi; [injection Hi as <-|]; discriminate.
    + discriminate.
  - apply list_elem_of_lookup_2 in Hi.
    rewrite Forall_forall in Hmerge. specialize (Hmerge _ Hi). congruence.
Qed.

Lemma updateFile_persists_first MainFile SI HadErrors X st st' :
  updateFile MainFile SI HadErrors X st = Some (tt, st') ->
  ∃ new, Trace st' = Trace st ++ new ∧ persist_before_merge new.
Proof.
  destruct X as [P Hash]. intros Hrun.
  apply updateFile_inv in Hrun as (Err & merge & _ & _ & _ & Htr & Hcase).
  eexists; split; [exact Htr|]. apply persist_before_merge_block.
  destruct Hcase as [(_ & -> & _) | (_ & S & R & L & _ & _ & _ & -> & _)];
    repeat constructor.
Qed.

(** The table changes only through the table writes in the trace. *)
Lemma updateFile_table_trace MainFile SI HadErrors X st st' :
  updateFile MainFile SI HadErrors X st = Some (tt, st') ->
  ∃ new, Trace st' = Trace st ++ new
    ∧ ShardVersions st' = apply_table_writes new (ShardVersions st).
Proof.
  destruct X as [P Hash]. intros Hrun.
  apply updateFile_inv in Hrun as (Err & merge & _ & _ & _ & Htr & Hcase).
  eexists; split; [exact Htr|]. unfold apply_table_writes.
  cbn [foldl]. rewrite foldl_app.
  assert (foldl (fun m E => match E with
                            | EvSetShardVersion Q SV => <[Q := SV]> m
                            | _ => m
                            end) (ShardVersions st) (store_log P Err)
          = ShardVersions st) as -> by (by destruct Err).
  by destruct Hcase as [(_ & -> & ->) | (_ & S & R & L & _ & _ & _ & -> & ->)].
Qed.

Lemma update_loop_table_trace MainFile SI HadErrors Files :
  ∀ st st', forEach (updateFile MainFile SI HadErrors) Files st = Some (tt, st') ->
    ∃ new, Trace st' = Trace st ++ new
      ∧ ShardVersions st' = apply_table_writes new (ShardVersions st).
Proof.
  induction Files as [|X Rest IH]; intros st st' Hrun.
  - injection Hrun as <-. exists []. by rewrite app_nil_r.
  - simpl in Hrun. apply bind_Some in Hrun as ([] & st1 & HX & Hrest).
    destruct (updateFile_table_trace _ _ _ _ _ _ HX) as (n1 & Ht1 & Hs1).
    destruct (IH _ _ Hrest) as (n2 & Ht2 & Hs2).
    exists (n1 ++ n2). split; [by rewrite Ht2, Ht1, app_assoc|].
    unfold apply_table_writes in *. by rewrite foldl_app, <- Hs1.
Qed.

(** C5: in every run of [update], a table write or a merge for a file is
    preceded by a [storeShard] call for the same file, every selected file
    gets its [storeShard] call, and the table changes only through the table
    writes so ordered. *)
Theorem update_persists_before_merging MainFile Index Snapshot HadErrors st :
  sources_resolve MainFile Index = true ->
  shards_engaged {| FSI_Index := Index; FSI_MainFile := MainFile |} ->
  ∃ st' new,
    update MainFile Index Snapshot HadErrors st = Some (tt, st')
    ∧ Trace st' = Trace st ++ new
    ∧ persist_before_merge new
    ∧ ShardVersions st' = apply_table_writes new (ShardVersions st)
    ∧ ∀ F P, filesToUpdate MainFile Index Snapshot HadErrors = Some F ->
        is_Some (F !! P) -> ∃ IF Err, EvStoreShard P IF Err ∈ new.
Proof.
  intros Hres Heng.
  destruct (update_total _ _ Snapshot HadErrors st Hres Heng) as [st' Hrun].
  pose proof Hrun as Hinv. apply update_inv in Hinv as (F & HF & Hloop).
  destruct (forEach_trace persist_before_merge _ _ persist_before_merge_nil
              persist_before_merge_app
              (fun X s s' _ => updateFile_persists_first _ _ _ X s s')
              _ _ Hloop) as (new & Htr & Hord).
  exists st', new. split_and!; [done..| |].
  { destruct (update_loop_table_trace _ _ _ _ _ _ Hloop) as (new' & Htr' & Hsv).
    assert (new' = new) as -> by (apply (app_inv_head (Trace st)); congruence).
    done. }
  intros F' P HF' [Hash HP]. assert (F' = F) as -> by congruence.
  destruct (update_loop_file _ _ HadErrors (map_to_list F) P Hash
              (NoDup_fst_map_to_list F)
              (proj2 (elem_of_map_to_list F P Hash) HP) _ _ Hloop)
    as (new' & Err & Htr' & Hst & _).
  assert (new' = new) as -> by (apply (app_inv_head (Trace st)); congruence).
  eauto.
Qed.

(** *** What is persisted and merged *)

Lemma shardFor_slabs MainFile SI P :
  Symbols (shardFor MainFile SI P) = Symbols (getShard SI P)
  ∧ Refs (shardFor MainFile SI P) = Refs (getShard SI P)
  ∧ Relations (shardFor MainFile SI P) = Relations (getShard SI P)
  ∧ Sources (shardFor MainFile SI P) = Sources (getShard SI P).
Proof. unfold shardFor. by case_bool_decide. Qed.

Lemma updateFile_shard_ok MainFile SI HadErrors X st st' :
  updateFile MainFile SI HadErrors X st = Some (tt, st') ->
  ∃ new, Trace st' = Trace st ++ new ∧ Forall (shard_event_ok MainFile SI) new.
Proof.
  destruct X as [P Hash]. intros Hrun.
  apply updateFile_inv in Hrun as (Err & merge & _ & _ & _ & Htr & Hcase).
  eexists; split; [exact Htr|]. constructor; [done|].
  apply Forall_app; split; [destruct Err; repeat constructor|].
  destruct (shardFor_slabs MainFile SI P) as (HS & HR & HL & _).
  destruct Hcase as [(_ & -> & _) | (_ & S & R & L & ? & ? & ? & -> & _)];
    repeat constructor; cbn; congruence.
Qed.

(** C9: the shard handed to [storeShard] for a file other than the main file
    has no compile command, the one for the main file is the shard of the
    sharded index unchanged, and what is merged are the slabs of that same
    shard. *)
Theorem header_shards_carry_no_command MainFile Index Snapshot HadErrors st :
  sources_resolve MainFile Index = true ->
  shards_engaged {| FSI_Index := Index; FSI_MainFile := MainFile |} ->
  let SI := {| FSI_Index := Index; FSI_MainFile := MainFile |} in
  ∃ st' new,
    update MainFile Index Snapshot HadErrors st = Some (tt, st')
    ∧ Trace st' = Trace st ++ new
    ∧ (∀ P IF Err, EvStoreShard P IF Err ∈ new ->
         (P ≠ MainFile -> Cmd IF = None)
         ∧ (P = MainFile -> IF = getShard SI MainFile)
         ∧ Symbols IF = Symbols (getShard SI P)
         ∧ Refs IF = Refs (getShard SI P)
         ∧ Relations IF = Relations (getShard SI P)
         ∧ Sources IF = Sources (getShard SI P))
    ∧ (∀ P S R L B, EvIndexedSymbolsUpdate P S R L B ∈ new ->
         S = Symbols (getShard SI P) ∧ R = Refs (getShard SI P)
         ∧ L = Relations (getShard SI P) ∧ B = bool_decide (P = MainFile)).
Proof.
  intros Hres Heng SI.
  destruct (update_total _ _ Snapshot HadErrors st Hres Heng) as [st' Hrun].
  pose proof Hrun as Hinv. apply update_inv in Hinv as (F & HF & Hloop).
  destruct (forEach_trace (Forall (shard_event_ok MainFile SI)) _ _
              (Forall_nil_2 _) (fun a b Ha Hb => Forall_app_2 _ a b Ha Hb)
              (fun X s s' _ => updateFile_shard_ok _ _ _ X s s')
              _ _ Hloop) as (new & Htr & Hok).
  exists st', new. split_and!; [done..| |]; rewrite Forall_forall in Hok.
  - intros P IF Err Hin. specialize (Hok _ Hin). cbn in Hok. subst IF.
    destruct (shardFor_slabs MainFile SI P) as (HS & HR & HL & HSr).
    split_and!; try done; unfold shardFor; intros HP.
    + by rewrite bool_decide_eq_true_2.
    + subst P. by rewrite bool_decide_eq_false_2 by (intros Hne; by apply Hne).
  - intros P S R L B Hin. exact (Hok _ Hin).
Qed.

(** *** Files whose digest and error state are unchanged *)

(** C2: a file whose snapshot entry has the digest observed for it and is not
    an erroneous entry facing a clean run is not selected: [update] makes no
    [storeShard] call, no table write and no merge for it. *)
Theorem update_idempotent MainFile Index Snapshot HadErrors Srcs P SV st :
  sources_resolve MainFile Index = true ->
  shards_engaged {| FSI_Index := Index; FSI_MainFile := MainFile |} ->
  Sources Index = Some Srcs ->
  Snapshot !! P = Some SV ->
  (∀ U IGN, Srcs !! U = Some IGN ->
     URI_resolve (URI IGN) MainFile = inr P ->
     IGN_Digest IGN = SV_Digest SV) ->
  SV_HadErrors SV && negb HadErrors = false ->
  ∃ st' new,
    update MainFile Index Snapshot HadErrors st = Some (tt, st')
    ∧ Trace st' = Trace st ++ new
    ∧ ShardVersions st' !! P = ShardVersions st !! P
    ∧ ∀ E, E ∈ new ->
        is_store P E = false ∧ is_table_write P E = false
        ∧ is_merge P E = false.
Proof.
  intros Hres Heng HS HP Hdig Herr.
  destruct (update_total _ _ Snapshot HadErrors st Hres Heng) as [st' Hrun].
  pose proof Hrun as Hinv. apply update_inv in Hinv as (F & HF & Hloop).
  assert (F !! P = None) as Hnot.
  { destruct (F !! P) as [D|] eqn:HD; [|done]. exfalso.
    destruct (filesToUpdate_lookup _ _ _ _ _ _ _ HF HD)
      as (Srcs' & U & IGN & HS' & HU & HresP & Hneeds & _).
    assert (Srcs' = Srcs) as -> by congruence.
    unfold needsUpdate in Hneeds. rewrite HP in Hneeds.
    rewrite (Hdig _ _ HU HresP), N.eqb_refl, Herr in Hneeds. discriminate. }
  destruct (update_loop_outside _ _ HadErrors (map_to_list F) P
              (fun Hin => is_Some_None (eq_ind _ _
                 (proj1 (map_to_list_fst_lookup F P) Hin) _ Hnot))
              _ _ Hloop) as (Hsv & new & Htr & Hall).
  exists st', new. split_and!; try done.
  intros E HE. rewrite Forall_forall in Hall.
  by apply event_path_other, Hall.
Qed.

(** *** Storage failures *)

Lemma store_errors_logged_app (a b : list Event) :
  store_errors_logged a -> store_errors_logged b ->
  store_errors_logged (a ++ b).
Proof.
  intros Ha Hb P IF E Hin. apply elem_of_app in Hin as [Hin|Hin];
    apply elem_of_app; [left; by eapply Ha | right; by eapply Hb].
Qed.

Lemma updateFile_logs_store_error MainFile SI HadErrors X st st' :
  updateFile MainFile SI HadErrors X st = Some (tt, st') ->
  ∃ new, Trace st' = Trace st ++ new ∧ store_errors_logged new.
Proof.
  destruct X as [P Hash]. intros Hrun.
  apply updateFile_inv in Hrun as (Err & merge & _ & _ & _ & Htr & Hcase).
  eexists; split; [exact Htr|]. intros Q IF E Hin.
  apply elem_of_cons in Hin as [Heq | Hin].
  - injection Heq as -> _ <-. cbn. solve_elem.
  - exfalso. apply elem_of_app in Hin as [Hin | Hin].
    + destruct Err; cbn in Hin; elem_absurd Hin.
    + destruct Hcase as [(_ & -> & _) | (_ & S & R & L & _ & _ & _ & -> & _)];
        elem_absurd Hin.
Qed.

Lemma memory_events_block P (IF : IndexFileIn) Err merge :
  Forall (fun E => is_memory_event E = true) merge ->
  memory_events (EvStoreShard P IF Err :: store_log P Err ++ merge) = merge.
Proof.
  intros Hm. unfold memory_events. rewrite filter_cons_False by (cbn; congruence).
  rewrite filter_app.
  assert (filter (fun E => is_memory_event E = true) (store_log P Err) = [])
    as -> by (by destruct Err).
  simpl. clear -Hm. induction Hm as [|E l HE _ IH]; [done|].
  by rewrite filter_cons_True, IH.
Qed.

(** One iteration changes the table and emits table writes and merges in
    the same way whatever the storage does. *)
Lemma updateFile_storage_indep MainFile SI HadErrors X st1 st2 st1' st2' :
  ShardVersions st1 = ShardVersions st2 ->
  updateFile MainFile SI HadErrors X st1 = Some (tt, st1') ->
  updateFile MainFile SI HadErrors X st2 = Some (tt, st2') ->
  ShardVersions st1' = ShardVersions st2'
  ∧ ∃ n1 n2, Trace st1' = Trace st1 ++ n1 ∧ Trace st2' = Trace st2 ++ n2
      ∧ memory_events n1 = memory_events n2.
Proof.
  destruct X as [P Hash]. intros Hsv H1 H2.
  apply updateFile_inv in H1 as (Err1 & m1 & _ & _ & _ & Ht1 & Hc1).
  apply updateFile_inv in H2 as (Err2 & m2 & _ & _ & _ & Ht2 & Hc2).
  rewrite <- Hsv in Hc2.
  assert (m1 = m2 ∧ ShardVersions st1' = ShardVersions st2'
          ∧ Forall (fun E => is_memory_event E = true) m1) as (<- & Hsv' & Hm).
  { destruct Hc1 as [(Hs1 & -> & ->) | (Hs1 & S & R & L & ? & ? & ? & -> & ->)];
      destruct Hc2 as [(Hs2 & -> & ->) | (Hs2 & S' & R' & L' & ? & ? & ? & -> & ->)];
      try congruence.
    - split_and!; [done..|constructor].
    - assert (S' = S) as -> by congruence.
      assert (R' = R) as -> by congruence.
      assert (L' = L) as -> by congruence.
      split_and!; [done..|repeat constructor]. }
  split; [done|]. eexists _, _. split; [exact Ht1|]. split; [exact Ht2|].
  by rewrite !memory_events_block.
Qed.

Lemma update_loop_storage_indep MainFile SI HadErrors Files :
  ∀ st1 st2 st1' st2',
    ShardVersions st1 = ShardVersions st2 ->
    forEach (updateFile MainFile SI HadErrors) Files st1 = Some (tt, st1') ->
    forEach (updateFile MainFile SI HadErrors) Files st2 = Some (tt, st2') ->
    ShardVersions st1' = ShardVersions st2'
    ∧ ∃ n1 n2, Trace st1' = Trace st1 ++ n1 ∧ Trace st2' = Trace st2 ++ n2
        ∧ memory_events n1 = memory_events n2.
Proof.
  induction Files as [|X Rest IH]; intros st1 st2 st1' st2' Hsv H1 H2.
  - injection H1 as <-. injection H2 as <-. split; [done|].
    exists [], []. by rewrite !app_nil_r.
  - simpl in H1, H2.
    apply bind_Some in H1 as ([] & s1 & HX1 & Hr1).
    apply bind_Some in H2 as ([] & s2 & HX2 & Hr2).
    destruct (updateFile_storage_indep _ _ _ _ _ _ _ _ Hsv HX1 HX2)
      as (Hsv1 & a1 & a2 & Ha1 & Ha2 & Hma).
    destruct (IH _ _ _ _ Hsv1 Hr1 Hr2) as (Hsv2 & b1 & b2 & Hb1 & Hb2 & Hmb).
    split; [done|]. exists (a1 ++ b1), (a2 ++ b2).
    rewrite Hb1, Ha1, Hb2, Ha2, !app_assoc. split_and!; try done.
    unfold memory_events in *. rewrite !filter_app. congruence.
Qed.

(** What a storage failure does and does not do: an error returned by
    [storeShard] is logged; where the guard of line 219 does not fire, the
    table write and the merge for that file follow; and in every case the
    table and the sequence of table writes and merges are the same as from
    any other storage state, in particular one in which the write
    succeeds. *)
Theorem store_failure_does_not_block_merge MainFile Index Snapshot HadErrors st :
  sources_resolve MainFile Index = true ->
  shards_engaged {| FSI_Index := Index; FSI_MainFile := MainFile |} ->
  ∃ st' new F,
    update MainFile Index Snapshot HadErrors st = Some (tt, st')
    ∧ Trace st' = Trace st ++ new
    ∧ filesToUpdate MainFile Index Snapshot HadErrors = Some F
    ∧ (∀ P IF E, EvStoreShard P IF (Some E) ∈ new ->
         EvElog "Failed to write background-index shard for file {0}: {1}"
           [P; E] ∈ new
         ∧ ∃ Hash, F !! P = Some Hash
             ∧ (skipsLocked (ShardVersions st) P Hash HadErrors = false ->
                  let SV' := {| SV_Digest := Hash; SV_HadErrors := HadErrors |} in
                  ShardVersions st' !! P = Some SV'
                  ∧ EvSetShardVersion P SV' ∈ new
                  ∧ ∃ S R L, EvIndexedSymbolsUpdate P (Some S) (Some R)
                               (Some L) (bool_decide (P = MainFile)) ∈ new))
    ∧ (∀ st2, ShardVersions st2 = ShardVersions st ->
         ∃ st2' new2,
           update MainFile Index Snapshot HadErrors st2 = Some (tt, st2')
           ∧ Trace st2' = Trace st2 ++ new2
           ∧ ShardVersions st2' = ShardVersions st'
           ∧ memory_events new2 = memory_events new).
Proof.
  intros Hres Heng.
  destruct (update_total _ _ Snapshot HadErrors st Hres Heng) as [st' Hrun].
  pose proof Hrun as Hinv. apply update_inv in Hinv as (F & HF & Hloop).
  destruct (forEach_trace store_errors_logged _ _
              (fun P IF E Hin => False_ind _ (proj1 (elem_of_nil _) Hin))
              store_errors_logged_app
              (fun X s s' _ => updateFile_logs_store_error _ _ _ X s s')
              _ _ Hloop) as (new & Htr & Hlog).
  exists st', new, F. split_and!; try done.
  - intros P IF E Hin. split; [by eapply Hlog|].
    destruct (F !! P) as [Hash|] eqn:HP.
    + exists Hash. split; [done|]. intros Hskip SV'.
      destruct (update_loop_file _ _ HadErrors (map_to_list F) P Hash
                  (NoDup_fst_map_to_list F)
                  (proj2 (elem_of_map_to_list F P Hash) HP) _ _ Hloop)
        as (new' & Err & Htr' & _ & _ & Hno).
      assert (new' = new) as -> by (apply (app_inv_head (Trace st)); congruence).
      destruct (Hno Hskip) as (? & ? & S & R & L & _ & _ & _ & ?). eauto 10.
    + exfalso.
      destruct (update_loop_outside _ _ HadErrors (map_to_list F) P
                  (fun Hi => is_Some_None (eq_ind _ _
                     (proj1 (map_to_list_fst_lookup F P) Hi) _ HP))
                  _ _ Hloop) as (_ & new' & Htr' & Hall).
      assert (new' = new) as -> by (apply (app_inv_head (Trace st)); congruence).
      rewrite Forall_forall in Hall. by apply (Hall _ Hin).
  - intros st2 Hsv.
    destruct (update_total _ _ Snapshot HadErrors st2 Hres Heng) as [st2' Hrun2].
    pose proof Hrun2 as Hinv2. apply update_inv in Hinv2 as (F2 & HF2 & Hloop2).
    assert (F2 = F) as -> by congruence.
    destruct (update_loop_storage_indep _ _ _ _ _ _ _ _ Hsv Hloop2 Hloop)
      as (Hsv' & n2 & n1 & Ht2 & Ht1 & Hmem).
    assert (n1 = new) as -> by (apply (app_inv_head (Trace st)); congruence).
    by exists st2', n2.
Qed.

(** The guard of line 219 at work: a selected file whose live entry has the
    same digest and [HadErrors] set keeps that entry when the run was clean;
    its shard is written to storage but neither recorded nor merged. *)
Lemma update_skips_recovery MainFile Index Snapshot st F P Hash :
  sources_resolve MainFile Index = true ->
  shards_engaged {| FSI_Index := Index; FSI_MainFile := MainFile |} ->
  filesToUpdate MainFile Index Snapshot false = Some F ->
  F !! P = Some Hash ->
  ShardVersions st !! P = Some {| SV_Digest := Hash; SV_HadErrors := true |} ->
  ∃ st' new,
    update MainFile Index Snapshot false st = Some (tt, st')
    ∧ Trace st' = Trace st ++ new
    ∧ (∃ IF Err, EvStoreShard P IF Err ∈ new)
    ∧ ShardVersions st' !! P
      = Some {| SV_Digest := Hash; SV_HadErrors := true |}
    ∧ Forall (fun E => is_table_write P E || is_merge P E = false) new.
Proof.
  intros Hres Heng HF HP Hlive.
  destruct (update_total _ _ Snapshot false st Hres Heng) as [st' Hrun].
  pose proof Hrun as Hinv. apply update_inv in Hinv as (F' & HF' & Hloop).
  assert (F' = F) as -> by congruence.
  destruct (update_loop_file _ _ false (map_to_list F) P Hash
              (NoDup_fst_map_to_list F)
              (proj2 (elem_of_map_to_list F P Hash) HP) _ _ Hloop)
    as (new & Err & Htr & Hst & Hyes & _).
  assert (skipsLocked (ShardVersions st) P Hash false = true) as Hskip.
  { unfold skipsLocked. rewrite Hlive. cbn. by rewrite N.eqb_refl. }
  destruct (Hyes Hskip) as [Hsv Hnone].
  exists st', new. split_and!; try done; [eauto | congruence].
Qed.

(** *** Runs with compile errors *)

Lemma skipsLocked_HadErrors (SVs : gmap string ShardVersion) P Hash :
  skipsLocked SVs P Hash true = false.
Proof. unfold skipsLocked. destruct (SVs !! P); [apply andb_false_r|done]. Qed.

Lemma updateFile_table_writes MainFile SI HadErrors X st st' :
  updateFile MainFile SI HadErrors X st = Some (tt, st') ->
  ∃ new, Trace st' = Trace st ++ new
    ∧ Forall (fun E => ∀ P SV, E = EvSetShardVersion P SV ->
                SV_HadErrors SV = HadErrors) new.
Proof.
  destruct X as [P Hash]. intros Hrun.
  apply updateFile_inv in Hrun as (Err & merge & _ & _ & _ & Htr & Hcase).
  eexists; split; [exact Htr|]. constructor; [discriminate|].
  apply Forall_app; split; [destruct Err; repeat constructor; discriminate|].
  destruct Hcase as [(_ & -> & _) | (_ & S & R & L & _ & _ & _ & -> & _)];
    repeat constructor; try discriminate.
  intros Q SV [= _ <-]. done.
Qed.

Lemma setHadErrors_flagged (IGN : IncludeGraphNode) :
  N.land (Flags (setHadErrors IGN)) SourceFlag_HadErrors = SourceFlag_HadErrors.
Proof.
  cbn. apply N.bits_inj. intros n. rewrite N.land_spec, N.lor_spec.
  destruct (N.testbit (Flags IGN) n), (N.testbit SourceFlag_HadErrors n);
    reflexivity.
Qed.

(** C6: when the front end produces a result and the compile had
    uncompilable errors, [index] succeeds, hands [update] the result with
    every source flagged [HadErrors], every table entry written carries
    [HadErrors = true], and every selected file is recorded and merged; the
    selected files include every source whose path has no entry in the table
    or an entry with another digest, so each of these is stored, recorded
    with [HadErrors = true] and merged; when the front end produces no
    result, [index] returns the error and leaves the state as it was. *)
Theorem index_merges_provisional_result C st :
  let AbsPath := getAbsolutePath C in
  (∀ Buf Syms Rs Rels Srcs D U,
     getBufferForFile AbsPath = inr Buf ->
     runFrontend C Buf (FileFilter (ShardVersions st))
       = Executed (Some Syms) (Some Rs) Rels (Some Srcs) D U ->
     D && U = true ->
     let Index := {| Symbols := Some Syms; Refs := Some Rs; Relations := Rels;
                     Sources := Some (setHadErrors <$> Srcs);
                     Cmd := Some C |} in
     sources_resolve AbsPath Index = true ->
     shards_engaged {| FSI_Index := Index; FSI_MainFile := AbsPath |} ->
     ∃ st1 st' new F,
       update AbsPath Index (ShardVersions st) true st = Some (tt, st1)
       ∧ index C st = Some (None, st')
       ∧ Trace st1 = Trace st ++ new
       ∧ Trace st' = Trace st1 ++ [EvRebuilder indexedTU]
       ∧ ShardVersions st' = ShardVersions st1
       ∧ (∀ K IGN, (setHadErrors <$> Srcs) !! K = Some IGN ->
            N.land (Flags IGN) SourceFlag_HadErrors = SourceFlag_HadErrors)
       ∧ (∀ P SV, EvSetShardVersion P SV ∈ new -> SV_HadErrors SV = true)
       ∧ filesToUpdate AbsPath Index (ShardVersions st) true = Some F
       ∧ (∀ P Hash, F !! P = Some Hash ->
            let SV' := {| SV_Digest := Hash; SV_HadErrors := true |} in
            ShardVersions st' !! P = Some SV'
            ∧ EvSetShardVersion P SV' ∈ new
            ∧ ∃ S R L, EvIndexedSymbolsUpdate P (Some S) (Some R) (Some L)
                         (bool_decide (P = AbsPath)) ∈ new)
       ∧ (∀ K IGN P,
            Srcs !! K = Some IGN ->
            URI_resolve (URI IGN) AbsPath = inr P ->
            (∀ SV, ShardVersions st !! P = Some SV ->
               SV_Digest SV ≠ IGN_Digest IGN) ->
            ∃ Hash IF Err S R L,
              (∃ K' IGN', Srcs !! K' = Some IGN'
                 ∧ URI_resolve (URI IGN') AbsPath = inr P
                 ∧ IGN_Digest IGN' = Hash)
              ∧ F !! P = Some Hash
              ∧ EvStoreShard P IF Err ∈ new
              ∧ ShardVersions st' !! P
                = Some {| SV_Digest := Hash; SV_HadErrors := true |}
              ∧ EvSetShardVersion P
                  {| SV_Digest := Hash; SV_HadErrors := true |} ∈ new
              ∧ EvIndexedSymbolsUpdate P (Some S) (Some R) (Some L)
                  (bool_decide (P = AbsPath)) ∈ new))
  ∧ (∀ Buf Err,
       getBufferForFile AbsPath = inr Buf ->
       FrontendRun_failure (runFrontend C Buf (FileFilter (ShardVersions st)))
         = Some Err ->
       index C st = Some (Some Err, st))
  ∧ (∀ Err st', index C st = Some (Some Err, st') -> st' = st).
Proof.
  intros AbsPath. split_and!.
  - intros Buf Syms Rs Rels Srcs D U Hbuf Hfront HDU Index Hres Heng.
    destruct (update_total _ _ (ShardVersions st) true st Hres Heng)
      as [st1 Hrun].
    pose proof Hrun as Hinv. apply update_inv in Hinv as (F & HF & Hloop).
    destruct (forEach_trace
                (Forall (fun E => ∀ P SV, E = EvSetShardVersion P SV ->
                           SV_HadErrors SV = true)) _ _
                (Forall_nil_2 _) (fun a b Ha Hb => Forall_app_2 _ a b Ha Hb)
                (fun X s s' _ => updateFile_table_writes _ _ _ X s s')
                _ _ Hloop) as (new & Htr & Hw).
    exists st1,
      {| ShardVersions := ShardVersions st1; Queue := Queue st1;
         IndexStorage := IndexStorage st1;
         Trace := Trace st1 ++ [EvRebuilder indexedTU] |}, new, F.
    split_and!; try done.
    + unfold index. fold AbsPath. rewrite Hbuf.
      unfold bind at 1, getShardVersions. rewrite Hfront. cbn [engaged andb].
      rewrite HDU. cbn [option_map]. unfold assert, bind at 1, ret.
      fold Index. unfold bind at 1. rewrite Hrun.
      unfold bind, emit, ret. reflexivity.
    + intros K IGN HK. rewrite lookup_fmap in HK.
      destruct (Srcs !! K) as [IGN0|]; [|discriminate].
      injection HK as <-. apply setHadErrors_flagged.
    + intros P SV Hin. rewrite Forall_forall in Hw. by eapply Hw.
    + intros P Hash HP SV'.
      destruct (update_loop_file _ _ true (map_to_list F) P Hash
                  (NoDup_fst_map_to_list F)
                  (proj2 (elem_of_map_to_list F P Hash) HP) _ _ Hloop)
        as (new' & Err & Htr' & _ & _ & Hno).
      assert (new' = new) as -> by (apply (app_inv_head (Trace st)); congruence).
      destruct (Hno (skipsLocked_HadErrors _ _ _))
        as (? & ? & S & R & L & _ & _ & _ & ?). eauto 10.
    + intros K IGN P HK HP Hdiff.
      assert (needsUpdate (ShardVersions st) P (setHadErrors IGN) true = true)
        as Hneeds.
      { unfold needsUpdate.
        destruct (ShardVersions st !! P) as [SV|] eqn:HSV; [|done].
        specialize (Hdiff SV eq_refl). apply N.eqb_neq in Hdiff.
        cbn. by rewrite Hdiff. }
      assert ((setHadErrors <$> Srcs) !! K = Some (setHadErrors IGN)) as HK'
        by (by rewrite lookup_fmap, HK).
      destruct (filesToUpdate_selects AbsPath Index (ShardVersions st) true F
                  (setHadErrors <$> Srcs) K (setHadErrors IGN) P
                  HF eq_refl HK' HP Hneeds) as [Hash HFP].
      destruct (filesToUpdate_lookup _ _ _ _ _ _ _ HF HFP)
        as (Srcs' & K' & IGN' & HS' & HK'' & HP' & _ & Hd).
      injection HS' as <-. rewrite lookup_fmap in HK''.
      destruct (Srcs !! K') as [IGN0|] eqn:HK0; [|discriminate].
      injection HK'' as <-.
      destruct (update_loop_file _ _ true (map_to_list F) P Hash
                  (NoDup_fst_map_to_list F)
                  (proj2 (elem_of_map_to_list F P Hash) HFP) _ _ Hloop)
        as (new' & Err & Htr' & Hst & _ & Hno).
      assert (new' = new) as -> by (apply (app_inv_head (Trace st)); congruence).
      destruct (Hno (skipsLocked_HadErrors _ _ _))
        as (Hsv & Hset & S & R & L & _ & _ & _ & Hmerge).
      eexists Hash, _, Err, S, R, L. split_and!; try done.
      by exists K', IGN0.
  - intros Buf Err Hbuf Hfail. unfold index. fold AbsPath. rewrite Hbuf.
    unfold bind, getShardVersions.
    destruct (runFrontend C Buf (FileFilter (ShardVersions st)));
      cbn in Hfail; try discriminate; injection Hfail as <-; reflexivity.
  - intros Err st'. unfold index. fold AbsPath.
    destruct (getBufferForFile AbsPath) as [EC|Buf].
    + unfold ret. by intros [= _ <-].
    + unfold bind at 1, getShardVersions.
      destruct (runFrontend C Buf (FileFilter (ShardVersions st)));
        try (unfold ret; by intros [= _ <-]).
      intros Hrun.
      apply bind_Some in Hrun as ([] & s1 & _ & Hrun).
      apply bind_Some in Hrun as ([] & s2 & _ & Hrun).
      apply bind_Some in Hrun as ([] & s3 & _ & Hrun).
      discriminate.
Qed.

(** *** Project loading *)

Lemma shardIsStale_run (LS : LoadedShard) st :
  ∃ st', shardIsStale LS st = Some (isStale_spec LS, st').
Proof.
  unfold shardIsStale, isStale_spec.
  destruct (getBufferForFile (AbsolutePath LS)) as [EC|Buf].
  - unfold bind, elog, emit, ret. by eexists.
  - unfold ret. eexists. do 2 f_equal.
    case_bool_decide as Hd.
    + apply negb_true_iff, N.eqb_neq, Hd.
    + apply negb_false_iff, N.eqb_eq.
      destruct (N.eq_dec (digest Buf) (LS_Digest LS)); [done | by destruct Hd].
Qed.

Lemma loadShards_total (Result : list LoadedShard) :
  ∀ n st, ∃ n' st', loadShards Result n st = Some (n', st').
Proof.
  induction Result as [|LS Rest IH]; intros n st; simpl.
  - unfold ret. by eexists _, _.
  - unfold bind at 1, loadShard.
    destruct (LS_Shard LS) as [Shard|]; unfold ret; [|apply IH].
    unfold bind, getShardVersions, putShardVersions, emit, ret. apply IH.
Qed.

Lemma collectTUsToIndex_run (Result : list LoadedShard) :
  (∀ LS, LS ∈ Result -> isStale_spec LS = true ->
     DependentTU LS ≠ EmptyString) ->
  ∀ TUs st, ∃ S st',
    collectTUsToIndex Result TUs st = Some (S, st')
    ∧ ∀ TU, TU ∈ S <->
        TU ∈ TUs ∨ ∃ LS, LS ∈ Result ∧ isStale_spec LS = true
                         ∧ DependentTU LS = TU.
Proof.
  induction Result as [|LS Rest IH]; intros Hassert TUs st; simpl.
  - exists TUs, st. split; [done|]. intros TU. split; [by left|].
    intros [?|(LS & Hin & _)]; [done|]. by apply elem_of_nil in Hin.
  - destruct (shardIsStale_run LS st) as [st1 Hst]. unfold bind at 1.
    rewrite Hst. destruct (isStale_spec LS) eqn:Hstale; cbn [negb].
    + assert (DependentTU LS ≠ EmptyString) as Hne
        by (apply Hassert; [apply list_elem_of_here|done]).
      unfold assert, bind. rewrite bool_decide_eq_false_2 by done. cbn.
      destruct (IH (fun L HL => Hassert L (list_elem_of_further _ _ _ HL))
                  ({[DependentTU LS]} ∪ TUs) st1) as (S & st' & -> & HS).
      exists S, st'. split; [done|]. intros TU. rewrite HS.
      rewrite elem_of_union, elem_of_singleton. split.
      * intros [[->|?]|(L & HL & ? & ?)].
        -- right. exists LS. split_and!; try done. apply list_elem_of_here.
        -- by left.
        -- right. exists L. split_and!; try done.
           by apply list_elem_of_further.
      * intros [?|(L & HL & Hs & <-)]; [by left; right|].
        apply elem_of_cons in HL as [->|HL]; [by left; left|].
        right. by exists L.
    + destruct (IH (fun L HL => Hassert L (list_elem_of_further _ _ _ HL))
                  TUs st1) as (S & st' & -> & HS).
      exists S, st'. split; [done|]. intros TU. rewrite HS. split.
      * intros [?|(L & HL & ? & ?)]; [by left|]. right. exists L.
        split_and!; try done. by apply list_elem_of_further.
      * intros [?|(L & HL & Hs & <-)]; [by left|].
        apply elem_of_cons in HL as [->|HL]; [congruence|].
        right. by exists L.
Qed.

Lemma collectCommands_omap (TUs : list string) :
  ∀ Acc, collectCommands TUs Acc = Acc ++ omap getCompileCommand TUs.
Proof.
  induction TUs as [|TU Rest IH]; intros Acc; simpl.
  - by rewrite app_nil_r.
  - destruct (getCompileCommand TU) as [C|]; rewrite IH; [|done].
    by rewrite <- app_assoc.
Qed.

(** C3: [loadProject] returns, up to order, the compile commands of the
    distinct [DependentTU] values of the stale shards for which the
    compilation database has a command; a stale shard whose TU has none adds
    nothing and does not make the call fail. *)
Theorem loadProject_worklist MainFiles st :
  let Result := loadIndexShards MainFiles (IndexStorage st) in
  (∀ LS, LS ∈ Result -> isStale_spec LS = true ->
     DependentTU LS ≠ EmptyString) ->
  ∃ Cmds st',
    loadProject MainFiles st = Some (Cmds, st')
    ∧ Cmds ≡ₚ worklist_spec Result
    ∧ ∀ C, C ∈ Cmds <->
        ∃ LS, LS ∈ Result ∧ isStale_spec LS = true
              ∧ getCompileCommand (DependentTU LS) = Some C.
Proof.
  intros Result Hassert. unfold loadProject.
  erewrite bind_run by (unfold emit; reflexivity).
  erewrite bind_run by reflexivity. cbn [IndexStorage]. fold Result.
  destruct (loadShards_total Result 0 (log_event (EvRebuilder startLoading) st))
    as (n & st1 & Hload).
  erewrite bind_run by exact Hload.
  erewrite bind_run by (unfold emit; reflexivity).
  erewrite bind_run by (unfold emit; reflexivity).
  match goal with |- context [bind (collectTUsToIndex Result ∅) _ ?s] =>
    destruct (collectTUsToIndex_run Result Hassert ∅ s) as (S & st' & HS & Hmem)
  end.
  erewrite bind_run by exact HS. unfold ret.
  rewrite collectCommands_omap, app_nil_l.
  assert (elements S ≡ₚ remove_dups
            (DependentTU <$> filter (fun LS => isStale_spec LS = true) Result))
    as Hperm.
  { apply NoDup_Permutation; [apply NoDup_elements|apply NoDup_remove_dups|].
    intros TU. rewrite elem_of_elements, elem_of_remove_dups, Hmem,
      list_elem_of_fmap. split.
    - intros [Hin|(LS & HL & Hs & <-)]; [by apply elem_of_empty in Hin|].
      exists LS. split; [done|]. by apply list_elem_of_filter.
    - intros (LS & -> & HL). apply list_elem_of_filter in HL as [Hs HL].
      right. by exists LS. }
  eexists _, _. split; [reflexivity|]. split.
  - unfold worklist_spec. by rewrite Hperm.
  - intros C. rewrite list_elem_of_omap. split.
    + intros (TU & HTU & HC). apply elem_of_elements, Hmem in HTU
        as [Hin|(LS & HL & Hs & <-)]; [by apply elem_of_empty in Hin|].
      by exists LS.
    + intros (LS & HL & Hs & HC). exists (DependentTU LS). split; [|done].
      apply elem_of_elements, Hmem. right. by exists LS.
Qed.

(** C8: for an unreadable file [shardIsStale] answers [false] and only logs;
    the loop of [loadProject] then passes over the shard without inserting
    its [DependentTU]; for a readable file the answer is whether the digest
    of the live content differs from the recorded one. *)
Theorem unreadable_shard_is_not_stale (LS : LoadedShard) st :
  (∀ EC, getBufferForFile (AbsolutePath LS) = inl EC ->
     shardIsStale LS st = Some (false, log_event (unreadable_log LS EC) st)
     ∧ ∀ Rest TUs,
         collectTUsToIndex (LS :: Rest) TUs st
         = collectTUsToIndex Rest TUs (log_event (unreadable_log LS EC) st))
  ∧ (∀ Buf, getBufferForFile (AbsolutePath LS) = inr Buf ->
       shardIsStale LS st
       = Some (bool_decide (digest Buf ≠ LS_Digest LS), st)).
Proof.
  split.
  - intros EC Hbuf.
    assert (shardIsStale LS st
            = Some (false, log_event (unreadable_log LS EC) st)) as Hrun.
    { unfold shardIsStale. by rewrite Hbuf. }
    split; [done|]. intros Rest TUs. simpl. unfold bind at 1. by rewrite Hrun.
  - intros Buf Hbuf. destruct (shardIsStale_run LS st) as [st' Hrun].
    unfold isStale_spec in Hrun. rewrite Hbuf in Hrun. rewrite Hrun.
    unfold shardIsStale in Hrun. rewrite Hbuf in Hrun. unfold ret in Hrun.
    congruence.
Qed.

(** *** The analysis-time file filter *)

(** C4, as amended: for a file that has a file entry, a canonical path and
    a digest, the filter answers [false] exactly when the snapshot has an
    entry for that path with the same digest and without errors; for a file
    lacking a file entry, a canonical path or a digest it answers [false]
    as well. *)
Theorem FileFilter_skips_unchanged Snapshot (SM : SourceManager) (FID : FileID) :
  (∀ F AbsPath Dig,
     getFileEntryForID SM FID = Some F ->
     getCanonicalPath F SM = Some AbsPath ->
     digestFile SM FID = Some Dig ->
     (FileFilter Snapshot SM FID = false <->
        ∃ SV, Snapshot !! AbsPath = Some SV ∧ SV_Digest SV = Dig
              ∧ SV_HadErrors SV = false)
     ∧ (FileFilter Snapshot SM FID = true <->
          Snapshot !! AbsPath = None
          ∨ ∃ SV, Snapshot !! AbsPath = Some SV
                  ∧ (SV_Digest SV ≠ Dig ∨ SV_HadErrors SV = true)))
  ∧ (getFileEntryForID SM FID = None
     ∨ (∃ F, getFileEntryForID SM FID = Some F ∧ getCanonicalPath F SM = None)
     ∨ digestFile SM FID = None ->
     FileFilter Snapshot SM FID = false).
Proof.
  unfold FileFilter. split.
  - intros F AbsPath Dig -> -> ->.
    destruct (Snapshot !! AbsPath) as [SV|].
    + destruct (N.eqb_spec (SV_Digest SV) Dig) as [Heq|Hne];
        destruct (SV_HadErrors SV) eqn:HE; cbn; split; split;
        try done; try (intros (SV' & [= <-] & ? & ?); congruence);
        try (intros [? | (SV' & [= <-] & [?|?])]; congruence); intros _.
      * right. exists SV. split; [done|]. by right.
      * exists SV. by rewrite HE.
      * right. exists SV. split; [done|]. by right.
      * right. exists SV. split; [done|]. by left.
    + split; split; try done; [by intros (? & ? & _) | by left].
  - intros [-> | [(F & -> & ->) | Hd]]; [done..|].
    destruct (getFileEntryForID SM FID) as [F|]; [|done].
    destruct (getCanonicalPath F SM); [|done]. by rewrite Hd.
Qed.

(** *** Boosting *)

Lemma boost_lookup (BoostTag : string) (New : QueuePriority) (Q : list Task) i T :
  Q !! i = Some T ->
  BackgroundQueue_boost BoostTag New Q !! i
  = Some (if bool_decide (Tag T = BoostTag)
             && (QueuePriority_rank (QueuePri T) <? QueuePriority_rank New)%nat
          then Task_set_QueuePri New T else T).
Proof.
  intros Hi. unfold BackgroundQueue_boost.
  change (map ?f Q) with (f <$> Q). by rewrite list_lookup_fmap, Hi.
Qed.

(** C10: [boostRelated] does nothing for a path that is not a header; for a
    header it raises to [IndexBoostedFile] the pending tasks of tier
    [IndexFile] whose tag is the path's file name without extension, and
    leaves every other task, and everything else, as it was.  A task made by
    [indexFileTask] has tier [IndexFile] and the file name without extension
    of its main file as tag, so it is raised whenever that name is the
    header's, whatever the directories. *)
Theorem boostRelated_keying Path st :
  ∃ st',
    boostRelated Path st = Some (tt, st')
    ∧ ShardVersions st' = ShardVersions st
    ∧ IndexStorage st' = IndexStorage st
    ∧ Trace st' = Trace st
    ∧ (isHeaderFile Path = false -> st' = st)
    ∧ (isHeaderFile Path = true ->
         length (Queue st') = length (Queue st)
         ∧ (∀ i T, Queue st !! i = Some T ->
              Queue st' !! i
              = Some (if bool_decide (Tag T = filenameWithoutExtension Path
                                      ∧ QueuePri T = IndexFile)
                      then Task_set_QueuePri IndexBoostedFile T else T))
         ∧ (∀ i C, Queue st !! i = Some (indexFileTask C) ->
              filenameWithoutExtension (Filename C)
              = filenameWithoutExtension Path ->
              Queue st' !! i
              = Some (Task_set_QueuePri IndexBoostedFile (indexFileTask C))))
    ∧ (∀ C, Tag (indexFileTask C) = filenameWithoutExtension (Filename C)
            ∧ QueuePri (indexFileTask C) = IndexFile)
    ∧ (∀ P1 P2, path_filename P1 = path_filename P2 ->
         filenameWithoutExtension P1 = filenameWithoutExtension P2).
Proof.
  assert (∀ i T, Queue st !! i = Some T ->
            BackgroundQueue_boost (filenameWithoutExtension Path)
              IndexBoostedFile (Queue st) !! i
            = Some (if bool_decide (Tag T = filenameWithoutExtension Path
                                    ∧ QueuePri T = IndexFile)
                    then Task_set_QueuePri IndexBoostedFile T else T))
    as Hboost.
  { intros i T Hi. rewrite (boost_lookup _ _ _ _ _ Hi). f_equal.
    destruct T as [R TP [] Tg]; cbn; repeat case_bool_decide; cbn;
      try done; intuition congruence. }
  assert (∀ C, Tag (indexFileTask C) = filenameWithoutExtension (Filename C)
               ∧ QueuePri (indexFileTask C) = IndexFile) as Htask by done.
  assert (∀ P1 P2, path_filename P1 = path_filename P2 ->
            filenameWithoutExtension P1 = filenameWithoutExtension P2) as Hdir.
  { intros P1 P2 Heq. unfold filenameWithoutExtension. by rewrite Heq. }
  unfold boostRelated. destruct (isHeaderFile Path) eqn:Hhdr.
  - eexists. split; [reflexivity|]. cbn [ShardVersions IndexStorage Trace Queue].
    split_and!; try done.
    intros _. split_and!.
    + unfold BackgroundQueue_boost. apply length_map.
    + exact Hboost.
    + intros i C Hi Htag. rewrite (Hboost _ _ Hi).
      by rewrite bool_decide_eq_true_2.
  - exists st. split_and!; try done.
Qed.

(** ** Further properties of [update] *)

Lemma update_run_inv MainFile Index Snapshot HadErrors st st' :
  update MainFile Index Snapshot HadErrors st = Some (tt, st') ->
  ∃ F new,
    filesToUpdate MainFile Index Snapshot HadErrors = Some F
    ∧ forEach (updateFile MainFile
                 {| FSI_Index := Index; FSI_MainFile := MainFile |} HadErrors)
        (map_to_list F) st = Some (tt, st')
    ∧ Trace st' = Trace st ++ new.
Proof.
  intros Hrun. apply update_inv in Hrun as (F & HF & Hloop).
  destruct (forEach_trace (fun _ => True) _ _ I (fun _ _ _ _ => I)
              (fun X s s' _ Hr =>
                 match updateFile_persists_first _ _ _ X s s' Hr with
                 | ex_intro _ n (conj Ht _) => ex_intro _ n (conj Ht I)
                 end) _ _ Hloop) as (new & Htr & _).
  by exists F, new.
Qed.

Lemma not_selected_outside (F : gmap string FileDigest) P :
  F !! P = None -> P ∉ (map_to_list F).*1.
Proof.
  intros HP Hin. apply map_to_list_fst_lookup in Hin as [D HD]. congruence.
Qed.

(** X1: [update] acts only on files of the include graph that differ from
    the snapshot: every storage write, table write and merge is for the
    resolved path of such a source, and the entry of any other path is left
    as it was. *)
Theorem update_touches_only_needed MainFile Index Snapshot HadErrors st st' :
  update MainFile Index Snapshot HadErrors st = Some (tt, st') ->
  ∃ new, Trace st' = Trace st ++ new
    ∧ (∀ E P, E ∈ new -> event_path E = Some P ->
         needs MainFile Index Snapshot HadErrors P)
    ∧ (∀ P, ¬ needs MainFile Index Snapshot HadErrors P ->
         ShardVersions st' !! P = ShardVersions st !! P)
    ∧ Queue st' = Queue st.
Proof.
  intros Hrun.
  destruct (update_run_inv _ _ _ _ _ _ Hrun) as (F & new & HF & Hloop & Htr).
  assert (∀ P, ¬ needs MainFile Index Snapshot HadErrors P -> F !! P = None)
    as Hnone.
  { intros P Hn. destruct (F !! P) as [D|] eqn:HD; [|done]. destruct Hn.
    destruct (filesToUpdate_lookup _ _ _ _ _ _ _ HF HD)
      as (Srcs & U & IGN & ? & ? & ? & ? & _). by exists Srcs, U, IGN. }
  exists new. split_and!; [done| | |].
  - intros E P HE HP.
    destruct (F !! P) as [D|] eqn:HD.
    + destruct (filesToUpdate_lookup _ _ _ _ _ _ _ HF HD)
        as (Srcs & U & IGN & ? & ? & ? & ? & _). by exists Srcs, U, IGN.
    + destruct (update_loop_outside _ _ HadErrors (map_to_list F) P
                  (not_selected_outside F P HD) _ _ Hloop)
        as (_ & new' & Htr' & Hall).
      assert (new' = new) as -> by (apply (app_inv_head (Trace st)); congruence).
      rewrite Forall_forall in Hall. by destruct (Hall _ HE).
  - intros P Hn.
    by destruct (update_loop_outside _ _ HadErrors (map_to_list F) P
                   (not_selected_outside F P (Hnone P Hn)) _ _ Hloop).
  - clear -Hloop. revert st Hloop.
    induction (map_to_list F) as [|[P Hash] Rest IH]; intros st Hloop.
    + by injection Hloop as <-.
    + simpl in Hloop. apply bind_Some in Hloop as ([] & st1 & HX & Hrest).
      apply updateFile_inv in HX as (Err & merge & _ & _ & HQ & _).
      rewrite (IH _ Hrest). exact HQ.
Qed.

Lemma stored_paths_app (a b : list Event) :
  stored_paths (a ++ b) = stored_paths a ++ stored_paths b.
Proof. unfold stored_paths. apply omap_app. Qed.

Lemma update_loop_stored_paths MainFile SI HadErrors Files :
  ∀ st st', forEach (updateFile MainFile SI HadErrors) Files st = Some (tt, st') ->
    ∃ new, Trace st' = Trace st ++ new ∧ stored_paths new = Files.*1.
Proof.
  induction Files as [|[P Hash] Rest IH]; intros st st' Hrun.
  - injection Hrun as <-. exists []. by rewrite app_nil_r.
  - simpl in Hrun. apply bind_Some in Hrun as ([] & st1 & HX & Hrest).
    apply updateFile_inv in HX as (Err & merge & _ & _ & _ & Ht1 & Hcase).
    destruct (IH _ _ Hrest) as (n2 & Ht2 & Hp2).
    eexists. split; [by rewrite Ht2, Ht1, <- app_assoc|].
    rewrite stored_paths_app, Hp2. cbn. f_equal.
    rewrite stored_paths_app.
    assert (stored_paths (store_log P Err) = []) as -> by (by destruct Err).
    by destruct Hcase as [(_ & Hm & _) | (_ & S & R & L & _ & _ & _ & Hm & _)];
      rewrite Hm.
Qed.

(** X2: [update] calls [storeShard] once for each selected file and for no
    other file: the shard identifiers of its storage writes are the keys of
    [FilesToUpdate], without repetition. *)
Theorem update_stores_each_selected_once MainFile Index Snapshot HadErrors st st' :
  update MainFile Index Snapshot HadErrors st = Some (tt, st') ->
  ∃ new F,
    Trace st' = Trace st ++ new
    ∧ filesToUpdate MainFile Index Snapshot HadErrors = Some F
    ∧ NoDup (stored_paths new)
    ∧ length (stored_paths new) = size F
    ∧ ∀ P, P ∈ stored_paths new <-> is_Some (F !! P).
Proof.
  intros Hrun. apply update_inv in Hrun as (F & HF & Hloop).
  destruct (update_loop_stored_paths _ _ _ _ _ _ Hloop) as (new & Htr & Hp).
  exists new, F. rewrite Hp. split_and!; try done.
  - apply NoDup_fst_map_to_list.
  - by rewrite length_fmap, length_map_to_list.
  - apply map_to_list_fst_lookup.
Qed.

(** X3: freshness.  A selected file whose live entry is missing or has
    another digest ends with the entry of this run, digest and error state,
    and its shard is merged. *)
Theorem update_records_changed_file MainFile Index Snapshot HadErrors st st' F P Hash :
  update MainFile Index Snapshot HadErrors st = Some (tt, st') ->
  filesToUpdate MainFile Index Snapshot HadErrors = Some F ->
  F !! P = Some Hash ->
  (∀ SV, ShardVersions st !! P = Some SV -> SV_Digest SV ≠ Hash) ->
  ShardVersions st' !! P
  = Some {| SV_Digest := Hash; SV_HadErrors := HadErrors |}
  ∧ ∃ new S R L,
      Trace st' = Trace st ++ new
      ∧ EvIndexedSymbolsUpdate P (Some S) (Some R) (Some L)
          (bool_decide (P = MainFile)) ∈ new.
Proof.
  intros Hrun HF HP Hlive. apply update_inv in Hrun as (F' & HF' & Hloop).
  assert (F' = F) as -> by congruence.
  destruct (update_loop_file _ _ HadErrors (map_to_list F) P Hash
              (NoDup_fst_map_to_list F)
              (proj2 (elem_of_map_to_list F P Hash) HP) _ _ Hloop)
    as (new & Err & Htr & _ & _ & Hno).
  assert (skipsLocked (ShardVersions st) P Hash HadErrors = false) as Hskip.
  { unfold skipsLocked. destruct (ShardVersions st !! P) as [SV|] eqn:HSV; [|done].
    specialize (Hlive SV eq_refl).
    apply N.eqb_neq in Hlive. by rewrite Hlive. }
  destruct (Hno Hskip) as (Hsv & _ & S & R & L & _ & _ & _ & Hin).
  split; [done|]. by exists new, S, R, L.
Qed.

Lemma updateFile_keeps_entries MainFile SI HadErrors X st st' P :
  updateFile MainFile SI HadErrors X st = Some (tt, st') ->
  is_Some (ShardVersions st !! P) -> is_Some (ShardVersions st' !! P).
Proof.
  destruct X as [Q Hash]. intros Hrun HP.
  apply updateFile_inv in Hrun as (Err & merge & _ & _ & _ & _ & Hcase).
  destruct Hcase as [(_ & _ & ->) | (_ & S & R & L & _ & _ & _ & _ & ->)];
    [done|].
  destruct (decide (Q = P)) as [->|Hne].
  - rewrite lookup_insert_eq. by eexists.
  - by rewrite lookup_insert_ne.
Qed.

Lemma update_keeps_entries MainFile Index Snapshot HadErrors st st' P :
  update MainFile Index Snapshot HadErrors st = Some (tt, st') ->
  is_Some (ShardVersions st !! P) -> is_Some (ShardVersions st' !! P).
Proof.
  intros Hrun. apply update_inv in Hrun as (F & _ & Hloop).
  revert st Hloop. induction (map_to_list F) as [|X Rest IH]; intros st Hloop HP.
  - by injection Hloop as <-.
  - simpl in Hloop. apply bind_Some in Hloop as ([] & st1 & HX & Hrest).
    apply (IH _ Hrest). by eapply updateFile_keeps_entries.
Qed.

Lemma collect_none MainFile Snapshot HadErrors Nodes :
  (∀ U IGN, (U, IGN) ∈ Nodes ->
     ∃ P, URI_resolve (URI IGN) MainFile = inr P
          ∧ needsUpdate Snapshot P IGN HadErrors = false) ->
  ∀ F0, collectFilesToUpdate MainFile Snapshot HadErrors Nodes F0 = Some F0.
Proof.
  induction Nodes as [|[U IGN] Rest IH]; intros Hall F0; simpl; [done|].
  destruct (Hall U IGN (list_elem_of_here _ _)) as (P & -> & ->).
  apply IH. intros U' IGN' Hin. apply (Hall U'). by apply list_elem_of_further.
Qed.

(** When no source differs from the snapshot, [update] does nothing at
    all. *)
Lemma update_noop MainFile Index Snapshot HadErrors Srcs st :
  Sources Index = Some Srcs ->
  up_to_date MainFile Srcs Snapshot HadErrors ->
  update MainFile Index Snapshot HadErrors st = Some (tt, st).
Proof.
  intros HS Hup. unfold update. rewrite HS.
  erewrite bind_run by reflexivity.
  rewrite collect_none.
  - erewrite bind_run by reflexivity. by rewrite map_to_list_empty.
  - intros U IGN Hin. apply Hup with U. by apply elem_of_map_to_list.
Qed.

(** X4: running [update] again on what it produced changes nothing.  Take a
    first call whose snapshot is the live table, as [index] makes it.  When
    the sources agree on the digest of each path and the guard of line 219
    skips none of the files that this call selects, a second call, with the
    table left by the first as snapshot, makes no storage write and leaves
    the state as it is. *)
Theorem update_again_is_noop MainFile Index HadErrors Srcs st :
  sources_resolve MainFile Index = true ->
  shards_engaged {| FSI_Index := Index; FSI_MainFile := MainFile |} ->
  Sources Index = Some Srcs ->
  digests_agree MainFile Srcs ->
  (∀ F P Hash,
     filesToUpdate MainFile Index (ShardVersions st) HadErrors = Some F ->
     F !! P = Some Hash ->
     skipsLocked (ShardVersions st) P Hash HadErrors = false) ->
  ∃ st',
    update MainFile Index (ShardVersions st) HadErrors st = Some (tt, st')
    ∧ update MainFile Index (ShardVersions st') HadErrors st' = Some (tt, st').
Proof.
  intros Hres Heng HS Hagree Hnoskip.
  destruct (update_total _ _ (ShardVersions st) HadErrors st Hres Heng)
    as [st' Hrun].
  exists st'. split; [done|]. apply (update_noop _ _ _ _ Srcs); [done|].
  pose proof Hrun as Hinv. apply update_inv in Hinv as (F & HF & Hloop).
  intros U IGN HU.
  assert (∃ P, URI_resolve (URI IGN) MainFile = inr P) as [P HP].
  { unfold sources_resolve in Hres. rewrite HS in Hres.
    rewrite forallb_forall in Hres.
    specialize (Hres (U, IGN)
                  (proj1 (list_elem_of_In _ _)
                     (proj2 (elem_of_map_to_list Srcs U IGN) HU))).
    unfold resolves in Hres. cbn in Hres.
    destruct (URI_resolve (URI IGN) MainFile) as [|P]; [discriminate|].
    by exists P. }
  exists P. split; [done|]. unfold needsUpdate.
  destruct (F !! P) as [Hash|] eqn:HFP.
  - destruct (update_loop_file _ _ HadErrors (map_to_list F) P Hash
                (NoDup_fst_map_to_list F)
                (proj2 (elem_of_map_to_list F P Hash) HFP) _ _ Hloop)
      as (new & Err & _ & _ & _ & Hno).
    destruct (Hno (Hnoskip F P Hash HF HFP)) as (-> & _). cbn.
    destruct (filesToUpdate_lookup _ _ _ _ _ _ _ HF HFP)
      as (Srcs' & U' & IGN' & HS' & HU' & HP' & _ & Hd).
    assert (Srcs' = Srcs) as -> by congruence.
    rewrite <- Hd, (Hagree _ _ _ _ _ HU' HU HP' HP), N.eqb_refl.
    by destruct HadErrors.
  - destruct (update_loop_outside _ _ HadErrors (map_to_list F) P
                (not_selected_outside F P HFP) _ _ Hloop) as (-> & _).
    destruct (needsUpdate (ShardVersions st) P IGN HadErrors) eqn:Hneeds;
      [|exact Hneeds].
    destruct (filesToUpdate_selects _ _ _ _ _ _ _ _ _ HF HS HU HP Hneeds).
    congruence.
Qed.

(** ** Further properties of [index] *)

Lemma index_inv C st r st' :
  index C st = Some (r, st') ->
  (∃ Err, r = Some Err ∧ st' = st
     ∧ (getBufferForFile (getAbsolutePath C) = inl Err
        ∨ ∃ Buf, getBufferForFile (getAbsolutePath C) = inr Buf
            ∧ FrontendRun_failure
                (runFrontend C Buf (FileFilter (ShardVersions st)))
              = Some Err))
  ∨ (∃ Buf Syms Rs Rels Srcs D U st1,
       r = None
       ∧ getBufferForFile (getAbsolutePath C) = inr Buf
       ∧ runFrontend C Buf (FileFilter (ShardVersions st))
         = Executed (Some Syms) (Some Rs) Rels (Some Srcs) D U
       ∧ update (getAbsolutePath C) (indexedResult C Syms Rs Rels Srcs (D && U))
           (ShardVersions st) (D && U) st = Some (tt, st1)
       ∧ st' = log_event (EvRebuilder indexedTU) st1).
Proof.
  unfold index.
  destruct (getBufferForFile (getAbsolutePath C)) as [EC|Buf] eqn:Hbuf.
  - unfold ret. intros [= <- <-]. left. exists EC. by eauto.
  - unfold bind at 1, getShardVersions.
    destruct (runFrontend C Buf (FileFilter (ShardVersions st)))
      as [| | |E|Syms Rs Rels Srcs D U] eqn:Hfront;
      try (unfold ret; intros [= <- <-]; left; eexists; split_and!;
           [reflexivity..|right; exists Buf; by rewrite Hfront]).
    intros Hrun. right.
    apply bind_Some in Hrun as ([] & s0 & Hassert & Hrun).
    unfold assert in Hassert.
    destruct Syms as [Syms|], Rs as [Rs|], Srcs as [Srcs|];
      try discriminate Hassert.
    cbn in Hassert. injection Hassert as <-.
    apply bind_Some in Hrun as ([] & st1 & Hupd & Hrun).
    apply bind_Some in Hrun as ([] & s2 & Hemit & Hret).
    unfold ret in Hret. injection Hret as <- <-.
    unfold emit in Hemit. injection Hemit as <-.
    exists Buf, Syms, Rs, Rels, Srcs, D, U, st1. split_and!; try done.
    unfold indexedResult. by destruct (D && U).
Qed.

(** X5: [index] returns an error exactly when the main file cannot be read
    or a step of the front end fails; the error is that of the failing step
    and the state is left as it was. *)
Theorem index_fails_exactly_on_read_or_frontend_failure C st Err st' :
  index C st = Some (Some Err, st') <->
  st' = st
  ∧ (getBufferForFile (getAbsolutePath C) = inl Err
     ∨ ∃ Buf, getBufferForFile (getAbsolutePath C) = inr Buf
         ∧ FrontendRun_failure
             (runFrontend C Buf (FileFilter (ShardVersions st)))
           = Some Err).
Proof.
  split.
  - intros Hrun. apply index_inv in Hrun
      as [(E & [= <-] & -> & Hwhy) | (? & ? & ? & ? & ? & ? & ? & ? & [=] & _)].
    done.
  - intros [-> [Hbuf | (Buf & Hbuf & Hfail)]]; unfold index; rewrite Hbuf.
    + reflexivity.
    + unfold bind, getShardVersions.
      destruct (runFrontend C Buf (FileFilter (ShardVersions st)));
        cbn in Hfail; try discriminate; by injection Hfail as <-.
Qed.

Lemma up_to_date_flagged MainFile Srcs Snapshot HadErrors :
  up_to_date MainFile Srcs Snapshot HadErrors ->
  up_to_date MainFile (setHadErrors <$> Srcs) Snapshot HadErrors.
Proof.
  intros Hup U IGN HU. rewrite lookup_fmap in HU.
  destruct (Srcs !! U) as [IGN0|] eqn:Hsrc; [|discriminate].
  injection HU as <-. exact (Hup U IGN0 Hsrc).
Qed.

(** X6: a run that finds every source as the table has it changes nothing.
    When each source of the result resolves to a path whose entry has the
    same digest, and is not an erroneous entry facing a clean run, [index]
    only notifies the rebuilder: no storage write, no table write, no
    merge. *)
Theorem index_of_unchanged_sources_is_noop C st Buf Syms Rs Rels Srcs D U :
  getBufferForFile (getAbsolutePath C) = inr Buf ->
  runFrontend C Buf (FileFilter (ShardVersions st))
    = Executed (Some Syms) (Some Rs) Rels (Some Srcs) D U ->
  up_to_date (getAbsolutePath C) Srcs (ShardVersions st) (D && U) ->
  index C st = Some (None, log_event (EvRebuilder indexedTU) st).
Proof.
  intros Hbuf Hfront Hup. unfold index. rewrite Hbuf.
  erewrite bind_run by reflexivity. rewrite Hfront. cbn [engaged andb].
  erewrite bind_run by reflexivity.
  erewrite bind_run; [by erewrite bind_run by reflexivity|].
  destruct (D && U); cbn [option_map].
  - apply (update_noop _ _ _ _ (setHadErrors <$> Srcs)); [done|].
    by apply up_to_date_flagged.
  - by apply (update_noop _ _ _ _ Srcs).
Qed.

Lemma updateFile_no_rebuilder MainFile SI HadErrors X st st' :
  updateFile MainFile SI HadErrors X st = Some (tt, st') ->
  ∃ new, Trace st' = Trace st ++ new
    ∧ Forall (fun E => E ≠ EvRebuilder indexedTU) new.
Proof.
  destruct X as [P Hash]. intros Hrun.
  apply updateFile_inv in Hrun as (Err & merge & _ & _ & _ & Htr & Hcase).
  eexists; split; [exact Htr|]. constructor; [discriminate|].
  apply Forall_app; split; [destruct Err; repeat constructor; discriminate|].
  destruct Hcase as [(_ & Hm & _) | (_ & S & R & L & _ & _ & _ & Hm & _)];
    rewrite Hm; repeat constructor; discriminate.
Qed.

(** X7: what a successful [index] records.  Every table entry it writes
    carries [hasDiagnostics && hasUncompilableErrorOccurred] as error state,
    every merge counts references exactly for the main file, and the
    rebuilder is notified once, after all of them. *)
Theorem index_records_error_state C st st' :
  index C st = Some (None, st') ->
  ∃ Buf Syms Rs Rels Srcs D U new,
    getBufferForFile (getAbsolutePath C) = inr Buf
    ∧ runFrontend C Buf (FileFilter (ShardVersions st))
      = Executed (Some Syms) (Some Rs) Rels (Some Srcs) D U
    ∧ Trace st' = Trace st ++ new ++ [EvRebuilder indexedTU]
    ∧ (EvRebuilder indexedTU ∉ new)
    ∧ (∀ P SV, EvSetShardVersion P SV ∈ new -> SV_HadErrors SV = D && U)
    ∧ (∀ P S R L B, EvIndexedSymbolsUpdate P S R L B ∈ new ->
         B = bool_decide (P = getAbsolutePath C)).
Proof.
  intros Hrun. apply index_inv in Hrun
    as [(? & [=] & _) | (Buf & Syms & Rs & Rels & Srcs & D & U & st1
                          & _ & Hbuf & Hfront & Hupd & ->)].
  apply update_inv in Hupd as (F & HF & Hloop).
  set (SI := {| FSI_Index := indexedResult C Syms Rs Rels Srcs (D && U);
                FSI_MainFile := getAbsolutePath C |}) in *.
  destruct (forEach_trace
              (Forall (fun E => ∀ P SV, E = EvSetShardVersion P SV ->
                         SV_HadErrors SV = D && U)) _ _
              (Forall_nil_2 _) (fun a b Ha Hb => Forall_app_2 _ a b Ha Hb)
              (fun X s s' _ => updateFile_table_writes _ _ _ X s s')
              _ _ Hloop) as (new & Htr & Hw).
  destruct (forEach_trace (Forall (shard_event_ok (getAbsolutePath C) SI)) _ _
              (Forall_nil_2 _) (fun a b Ha Hb => Forall_app_2 _ a b Ha Hb)
              (fun X s s' _ => updateFile_shard_ok _ _ _ X s s')
              _ _ Hloop) as (new1 & Htr1 & Hok).
  destruct (forEach_trace (Forall (fun E => E ≠ EvRebuilder indexedTU)) _ _
              (Forall_nil_2 _) (fun a b Ha Hb => Forall_app_2 _ a b Ha Hb)
              (fun X s s' _ => updateFile_no_rebuilder _ _ _ X s s')
              _ _ Hloop) as (new2 & Htr2 & Hno).
  assert (new1 = new) as -> by (apply (app_inv_head (Trace st)); congruence).
  assert (new2 = new) as -> by (apply (app_inv_head (Trace st)); congruence).
  rewrite Forall_forall in Hw, Hok, Hno.
  exists Buf, Syms, Rs, Rels, Srcs, D, U, new. split_and!; try done.
  - cbn. by rewrite Htr, <- app_assoc.
  - intros Hin. by apply (Hno _ Hin).
  - intros P SV Hin. by eapply Hw.
  - intros P S R L B Hin. by destruct (Hok _ Hin) as (_ & _ & _ & ?).
Qed.

(** ** The filter and the selection *)

(** X8: the file filter and the selection of [update] read the same
    snapshot consistently.  For a file with a file entry, a canonical path
    and a digest, seen by [update] with that path and digest: whenever
    [update] would select it, the filter had the analyzer collect from it;
    for a clean run the two agree exactly. *)
Theorem selected_files_are_collected Snapshot (SM : SourceManager)
    (FID : FileID) F AbsPath Dig IGN HadErrors :
  getFileEntryForID SM FID = Some F ->
  getCanonicalPath F SM = Some AbsPath ->
  digestFile SM FID = Some Dig ->
  IGN_Digest IGN = Dig ->
  (needsUpdate Snapshot AbsPath IGN HadErrors = true ->
     FileFilter Snapshot SM FID = true)
  ∧ (HadErrors = false ->
       FileFilter Snapshot SM FID = needsUpdate Snapshot AbsPath IGN HadErrors).
Proof.
  intros HF HP HD <-. unfold FileFilter, needsUpdate. rewrite HF, HP, HD.
  destruct (Snapshot !! AbsPath) as [SV|]; [|done].
  destruct (SV_Digest SV =? IGN_Digest IGN)%N, (SV_HadErrors SV), HadErrors;
    cbn; split; try done.
Qed.

(** ** Further properties of project loading *)

Lemma loadShards_run (Result : list LoadedShard) :
  ∀ n st,
    loadShards Result n st
    = Some ((n + length (filter (fun LS => engaged (LS_Shard LS) = true) Result))%nat,
            {| ShardVersions := loadedTable Result (ShardVersions st);
               Queue := Queue st; IndexStorage := IndexStorage st;
               Trace := Trace st ++ flat_map loadEvents Result |}).
Proof.
  induction Result as [|LS Rest IH]; intros n st; simpl.
  - unfold ret. cbn. rewrite Nat.add_0_r, app_nil_r. by destruct st.
  - unfold loadEvents at 1, loadShard.
    destruct (LS_Shard LS) as [Shard|] eqn:HS; cbn [engaged].
    + rewrite filter_cons_True by (by rewrite HS).
      unfold bind, getShardVersions, putShardVersions, emit, ret; cbn.
      rewrite IH. cbn. rewrite <- !app_assoc. cbn. do 2 f_equal. lia.
    + rewrite filter_cons_False by (by rewrite HS).
      unfold bind, ret. by rewrite IH.
Qed.

Lemma collectTUsToIndex_state (Result : list LoadedShard) :
  ∀ TUs st S st',
    collectTUsToIndex Result TUs st = Some (S, st') ->
    ShardVersions st' = ShardVersions st ∧ Queue st' = Queue st
    ∧ IndexStorage st' = IndexStorage st
    ∧ Trace st' = Trace st ++ flat_map staleLogs Result.
Proof.
  induction Result as [|LS Rest IH]; intros TUs st S st' Hrun; simpl in Hrun.
  - injection Hrun as <- <-. by rewrite app_nil_r.
  - apply bind_Some in Hrun as (Stale & st1 & Hstale & Hrun).
    assert (ShardVersions st1 = ShardVersions st ∧ Queue st1 = Queue st
            ∧ IndexStorage st1 = IndexStorage st
            ∧ Trace st1 = Trace st ++ staleLogs LS) as (E1 & E2 & E3 & E4).
    { unfold shardIsStale, staleLogs in *.
      destruct (getBufferForFile (AbsolutePath LS)) as [EC|Buf].
      - unfold bind, elog, emit, ret in Hstale. by injection Hstale as <- <-.
      - unfold ret in Hstale. injection Hstale as <- <-. by rewrite app_nil_r. }
    assert (∃ TUs', collectTUsToIndex Rest TUs' st1 = Some (S, st'))
      as [TUs' Hrest].
    { destruct Stale; cbn in Hrun; [|by eexists].
      apply bind_Some in Hrun as ([] & s & Ha & Hrun).
      unfold assert in Ha. destruct (negb _); [|discriminate].
      injection Ha as <-. by eexists. }
    destruct (IH _ _ _ _ Hrest) as (-> & -> & -> & ->).
    cbn. by rewrite E4, <- app_assoc.
Qed.

Lemma loadProject_inv MainFiles st Cmds st' :
  loadProject MainFiles st = Some (Cmds, st') ->
  let Result := loadIndexShards MainFiles (IndexStorage st) in
  let Loaded := length (filter (fun LS => engaged (LS_Shard LS) = true) Result) in
  ShardVersions st' = loadedTable Result (ShardVersions st)
  ∧ Queue st' = Queue st
  ∧ IndexStorage st' = IndexStorage st
  ∧ Trace st'
    = Trace st ++ [EvRebuilder startLoading] ++ flat_map loadEvents Result
      ++ [EvRebuilder (loadedShard Loaded); EvRebuilder doneLoading]
      ++ flat_map staleLogs Result.
Proof.
  intros Hrun Result Loaded. unfold loadProject in Hrun.
  erewrite bind_run in Hrun by (unfold emit; reflexivity).
  erewrite bind_run in Hrun by reflexivity. cbn [IndexStorage] in Hrun.
  fold Result in Hrun.
  erewrite bind_run in Hrun by apply loadShards_run.
  erewrite bind_run in Hrun by (unfold emit; reflexivity).
  erewrite bind_run in Hrun by (unfold emit; reflexivity).
  apply bind_Some in Hrun as (S & s & Hc & Hret).
  unfold ret in Hret. injection Hret as _ <-.
  apply collectTUsToIndex_state in Hc as (-> & -> & -> & ->). cbn.
  fold Loaded. split_and!; try done. by rewrite <- !app_assoc.
Qed.

Lemma stored_paths_loadEvents (l : list LoadedShard) :
  stored_paths (flat_map loadEvents l) = [].
Proof.
  induction l as [|LS l IH]; [done|]. cbn. rewrite stored_paths_app, IH.
  unfold loadEvents. by destruct (LS_Shard LS).
Qed.

Lemma stored_paths_staleLogs (l : list LoadedShard) :
  stored_paths (flat_map staleLogs l) = [].
Proof.
  induction l as [|LS l IH]; [done|]. cbn. rewrite stored_paths_app, IH.
  unfold staleLogs. by destruct (getBufferForFile (AbsolutePath LS)).
Qed.

(** X9: the events of [loadProject], in full and in order: the rebuilder is
    told that loading starts; each shard that storage could provide is
    recorded and merged, with its own slabs and [CountReferences] flag, in
    the order of the loader's result; the rebuilder is told how many were
    loaded, and that loading is done; only then come the log lines of the
    unreadable files.  Storage and the queue are not touched. *)
Theorem loadProject_events MainFiles st Cmds st' :
  loadProject MainFiles st = Some (Cmds, st') ->
  let Result := loadIndexShards MainFiles (IndexStorage st) in
  Trace st'
  = Trace st ++ [EvRebuilder startLoading] ++ flat_map loadEvents Result
    ++ [EvRebuilder
          (loadedShard
             (length (filter (fun LS => engaged (LS_Shard LS) = true) Result)));
        EvRebuilder doneLoading]
    ++ flat_map staleLogs Result
  ∧ stored_paths (flat_map loadEvents Result ++ flat_map staleLogs Result) = []
  ∧ IndexStorage st' = IndexStorage st
  ∧ Queue st' = Queue st.
Proof.
  intros Hrun Result.
  destruct (loadProject_inv _ _ _ _ Hrun) as (_ & HQ & HS & HT).
  split_and!; try done.
  by rewrite stored_paths_app, stored_paths_loadEvents, stored_paths_staleLogs.
Qed.

Lemma loadedTable_app (l1 l2 : list LoadedShard) SVs :
  loadedTable (l1 ++ l2) SVs = loadedTable l2 (loadedTable l1 SVs).
Proof. unfold loadedTable. apply foldl_app. Qed.

Lemma loadedTable_other (Result : list LoadedShard) P :
  (∀ LS, LS ∈ Result -> engaged (LS_Shard LS) = true -> AbsolutePath LS ≠ P) ->
  ∀ SVs, loadedTable Result SVs !! P = SVs !! P.
Proof.
  induction Result as [|LS Rest IH]; intros Hall SVs; [done|].
  change (loadedTable (LS :: Rest) SVs)
    with (loadedTable Rest (loadedTable [LS] SVs)).
  rewrite IH by (intros L HL; apply Hall; by apply list_elem_of_further).
  unfold loadedTable. cbn.
  destruct (engaged (LS_Shard LS)) eqn:HE; [|done].
  rewrite lookup_insert_ne; [done|]. apply Hall; [apply list_elem_of_here|done].
Qed.

(** X10: the version table after [loadProject].  The entry of a path is the
    digest and error state of the last shard loaded for it; shards that
    storage could not provide write nothing, and the entry of a path without
    a loaded shard is left as it was. *)
Theorem loadProject_table MainFiles st Cmds st' :
  loadProject MainFiles st = Some (Cmds, st') ->
  let Result := loadIndexShards MainFiles (IndexStorage st) in
  (∀ Before LS After,
     Result = Before ++ LS :: After ->
     engaged (LS_Shard LS) = true ->
     (∀ L, L ∈ After -> engaged (LS_Shard L) = true ->
        AbsolutePath L ≠ AbsolutePath LS) ->
     ShardVersions st' !! AbsolutePath LS
     = Some {| SV_Digest := LS_Digest LS; SV_HadErrors := LS_HadErrors LS |})
  ∧ (∀ P,
       (∀ LS, LS ∈ Result -> engaged (LS_Shard LS) = true ->
          AbsolutePath LS ≠ P) ->
       ShardVersions st' !! P = ShardVersions st !! P).
Proof.
  intros Hrun Result.
  destruct (loadProject_inv _ _ _ _ Hrun) as (HT & _). fold Result in HT.
  rewrite HT. split.
  - intros Before LS After -> HE Hlast.
    rewrite loadedTable_app.
    change (loadedTable (LS :: After) ?m)
      with (loadedTable After (loadedTable [LS] m)).
    rewrite (loadedTable_other After _ Hlast). unfold loadedTable at 1. cbn.
    by rewrite HE, lookup_insert_eq.
  - intros P Hall. by apply loadedTable_other.
Qed.

Lemma loadedTable_keeps (Result : list LoadedShard) P :
  ∀ SVs, is_Some (SVs !! P) -> is_Some (loadedTable Result SVs !! P).
Proof.
  induction Result as [|LS Rest IH]; intros SVs HP; [done|].
  change (loadedTable (LS :: Rest) SVs)
    with (loadedTable Rest (loadedTable [LS] SVs)).
  apply IH. unfold loadedTable. cbn. destruct (engaged (LS_Shard LS)); [|done].
  destruct (decide (AbsolutePath LS = P)) as [->|Hne].
  - rewrite lookup_insert_eq. by eexists.
  - by rewrite lookup_insert_ne.
Qed.

(** X11: an entry of the version table is never deleted: whatever [update],
    [index] or [loadProject] do, a path that has an entry before the call
    has one after it. *)
Theorem table_entries_are_never_deleted st P :
  is_Some (ShardVersions st !! P) ->
  (∀ MainFile Index Snapshot HadErrors st',
     update MainFile Index Snapshot HadErrors st = Some (tt, st') ->
     is_Some (ShardVersions st' !! P))
  ∧ (∀ C r st', index C st = Some (r, st') ->
       is_Some (ShardVersions st' !! P))
  ∧ (∀ MainFiles Cmds st', loadProject MainFiles st = Some (Cmds, st') ->
       is_Some (ShardVersions st' !! P)).
Proof.
  intros HP. split_and!.
  - intros MainFile Index Snapshot HadErrors st' Hrun.
    by eapply update_keeps_entries.
  - intros C r st' Hrun. apply index_inv in Hrun
      as [(? & _ & -> & _) | (? & ? & ? & ? & ? & ? & ? & st1 & _ & _ & _ & Hupd & ->)];
      [done|].
    cbn. by eapply update_keeps_entries.
  - intros MainFiles Cmds st' Hrun.
    destruct (loadProject_inv _ _ _ _ Hrun) as (-> & _).
    by apply loadedTable_keeps.
Qed.

(** ** Loading, then indexing *)

Lemma update_skips_recorded_path MainFile Index Snapshot HadErrors Srcs P SV st st' :
  update MainFile Index Snapshot HadErrors st = Some (tt, st') ->
  Sources Index = Some Srcs ->
  Snapshot !! P = Some SV ->
  (∀ U IGN, Srcs !! U = Some IGN ->
     URI_resolve (URI IGN) MainFile = inr P -> IGN_Digest IGN = SV_Digest SV) ->
  SV_HadErrors SV && negb HadErrors = false ->
  ShardVersions st' !! P = ShardVersions st !! P
  ∧ ∃ new, Trace st' = Trace st ++ new
           ∧ Forall (fun E => event_path E ≠ Some P) new.
Proof.
  intros Hrun HS HP Hdig Herr. apply update_inv in Hrun as (F & HF & Hloop).
  refine (update_loop_outside _ _ HadErrors (map_to_list F) P _ _ _ Hloop).
  apply not_selected_outside.
  destruct (F !! P) as [D|] eqn:HD; [|done]. exfalso.
  destruct (filesToUpdate_lookup _ _ _ _ _ _ _ HF HD)
    as (Srcs' & U & IGN & HS' & HU & HresP & Hneeds & _).
  assert (Srcs' = Srcs) as -> by congruence.
  unfold needsUpdate in Hneeds. rewrite HP in Hneeds.
  rewrite (Hdig _ _ HU HresP), N.eqb_refl, Herr in Hneeds. discriminate.
Qed.

(** X12: what [loadProject] restores, a later [update] respects.  If the
    last shard loaded for a path carries the digest that the analysis then
    observes for that path, and is not an erroneous shard facing a clean
    run, an [update] that takes the table as snapshot makes no storage
    write, table write or merge for the path, and the restored entry
    stays. *)
Theorem restored_shard_is_not_rewritten MainFiles st Cmds st1
    Before LS After MainFile Index HadErrors Srcs st2 :
  loadProject MainFiles st = Some (Cmds, st1) ->
  loadIndexShards MainFiles (IndexStorage st) = Before ++ LS :: After ->
  engaged (LS_Shard LS) = true ->
  (∀ L, L ∈ After -> engaged (LS_Shard L) = true ->
     AbsolutePath L ≠ AbsolutePath LS) ->
  LS_HadErrors LS && negb HadErrors = false ->
  Sources Index = Some Srcs ->
  (∀ U IGN, Srcs !! U = Some IGN ->
     URI_resolve (URI IGN) MainFile = inr (AbsolutePath LS) ->
     IGN_Digest IGN = LS_Digest LS) ->
  update MainFile Index (ShardVersions st1) HadErrors st1 = Some (tt, st2) ->
  ShardVersions st2 !! AbsolutePath LS
  = Some {| SV_Digest := LS_Digest LS; SV_HadErrors := LS_HadErrors LS |}
  ∧ ∃ new, Trace st2 = Trace st1 ++ new
      ∧ ∀ E, E ∈ new ->
          is_store (AbsolutePath LS) E = false
          ∧ is_table_write (AbsolutePath LS) E = false
          ∧ is_merge (AbsolutePath LS) E = false.
Proof.
  intros Hload HR HE Hlast Herr HS Hdig Hupd.
  assert (ShardVersions st1 !! AbsolutePath LS
          = Some {| SV_Digest := LS_Digest LS;
                    SV_HadErrors := LS_HadErrors LS |}) as Hentry.
  { destruct (loadProject_inv _ _ _ _ Hload) as (-> & _). rewrite HR.
    rewrite loadedTable_app.
    change (loadedTable (LS :: After) ?m)
      with (loadedTable After (loadedTable [LS] m)).
    rewrite (loadedTable_other After _ Hlast). unfold loadedTable at 1. cbn.
    by rewrite HE, lookup_insert_eq. }
  destruct (update_skips_recorded_path _ _ _ _ _ _ _ _ _ Hupd HS Hentry Hdig Herr)
    as (Hsame & new & Htr & Hall).
  split; [congruence|]. exists new. split; [done|].
  intros E Hin. rewrite Forall_forall in Hall. by apply event_path_other, Hall.
Qed.

(** ** Tasks *)

(** X13: an index task never fails.  When [index] returns an error, the
    task logs it under the command's file name and ends, the state being
    otherwise as before the task; when [index] succeeds, the task adds
    nothing to what [index] did. *)
Theorem index_task_swallows_errors C st :
  (∀ Err st', index C st = Some (Some Err, st') ->
     runIndexFile C st
     = Some (tt, log_event (EvElog "Indexing {0} failed: {1}" [Filename C; Err])
                   st))
  ∧ (∀ st', index C st = Some (None, st') ->
       runIndexFile C st = Some (tt, st')).
Proof.
  split.
  - intros Err st' Hrun. pose proof Hrun as Hinv.
    apply index_inv in Hinv
      as [(E & _ & -> & _) | (? & ? & ? & ? & ? & ? & ? & ? & [=] & _)].
    unfold runIndexFile. by erewrite bind_run by exact Hrun.
  - intros st' Hrun. unfold runIndexFile. by erewrite bind_run by exact Hrun.
Qed.

Lemma loadProject_commands MainFiles st :
  let Result := loadIndexShards MainFiles (IndexStorage st) in
  (∀ LS, LS ∈ Result -> isStale_spec LS = true ->
     DependentTU LS ≠ EmptyString) ->
  ∃ (TUs : gset string) st',
    loadProject MainFiles st
    = Some (omap getCompileCommand (elements TUs), st')
    ∧ ∀ TU, TU ∈ TUs <->
        ∃ LS, LS ∈ Result ∧ isStale_spec LS = true ∧ DependentTU LS = TU.
Proof.
  intros Result Hassert. unfold loadProject.
  erewrite bind_run by (unfold emit; reflexivity).
  erewrite bind_run by reflexivity. cbn [IndexStorage]. fold Result.
  erewrite bind_run by apply loadShards_run.
  erewrite bind_run by (unfold emit; reflexivity).
  erewrite bind_run by (unfold emit; reflexivity).
  match goal with |- context [bind (collectTUsToIndex Result ∅) _ ?s] =>
    destruct (collectTUsToIndex_run Result Hassert ∅ s) as (S & st' & HS & Hmem)
  end.
  erewrite bind_run by exact HS. unfold ret.
  rewrite collectCommands_omap, app_nil_l.
  exists S, st'. split; [done|]. intros TU. rewrite Hmem. split.
  - intros [Hin|?]; [by apply elem_of_empty in Hin|done].
  - by right.
Qed.

(** X14: the batch a reconciliation task enqueues.  The task itself has tier
    [LoadShards] and thread priority [Default].  When it runs, the vector it
    hands to [Queue.append] holds one [indexFileTask] per distinct stale
    translation unit with a compile command, in the order chosen by the
    shuffle, each of tier [IndexFile] and tagged with its file name without
    extension. *)
Theorem changed_files_task_batch
    (Shuffle : list CompileCommand -> list CompileCommand) ChangedFiles st :
  (∀ l, Shuffle l ≡ₚ l) ->
  (∀ LS, LS ∈ loadIndexShards ChangedFiles (IndexStorage st) ->
     isStale_spec LS = true -> DependentTU LS ≠ EmptyString) ->
  QueuePri (changedFilesTask ChangedFiles) = LoadShards
  ∧ ThreadPri (changedFilesTask ChangedFiles) = Default
  ∧ ∃ Tasks st',
      runChangedFiles Shuffle ChangedFiles st = Some (Tasks, st')
      ∧ Tasks ≡ₚ indexFileTask
                  <$> worklist_spec
                        (loadIndexShards ChangedFiles (IndexStorage st))
      ∧ ∀ T, T ∈ Tasks ->
          QueuePri T = IndexFile
          ∧ ∃ LS, LS ∈ loadIndexShards ChangedFiles (IndexStorage st)
                  ∧ isStale_spec LS = true
                  ∧ (∃ C, getCompileCommand (DependentTU LS) = Some C
                          ∧ T = indexFileTask C
                          ∧ Tag T = filenameWithoutExtension (Filename C)).
Proof.
  intros Hshuffle Hassert. split; [done|]. split; [done|].
  destruct (loadProject_commands ChangedFiles st Hassert)
    as (TUs & st' & Hrun & Hmem).
  set (Result := loadIndexShards ChangedFiles (IndexStorage st)) in *.
  assert (elements TUs ≡ₚ remove_dups
            (DependentTU <$> filter (fun LS => isStale_spec LS = true) Result))
    as Hperm.
  { apply NoDup_Permutation; [apply NoDup_elements|apply NoDup_remove_dups|].
    intros TU. rewrite elem_of_elements, elem_of_remove_dups, Hmem,
      list_elem_of_fmap. split.
    - intros (LS & HL & Hs & <-). exists LS. split; [done|].
      by apply list_elem_of_filter.
    - intros (LS & -> & HL). apply list_elem_of_filter in HL as [Hs HL].
      by exists LS. }
  eexists _, st'. split.
  { unfold runChangedFiles. erewrite bind_run by exact Hrun. reflexivity. }
  split.
  - change (map indexFileTask ?l) with (indexFileTask <$> l).
    unfold worklist_spec. by rewrite Hshuffle, Hperm.
  - intros T HT. change (map indexFileTask ?l) with (indexFileTask <$> l) in HT.
    apply list_elem_of_fmap in HT as (C & -> & HC).
    rewrite Hshuffle in HC.
    apply list_elem_of_omap in HC as (TU & HTU & HC).
    apply elem_of_elements, Hmem in HTU as (LS & HL & Hs & <-).
    split; [done|]. exists LS. split_and!; try done. by exists C.
Qed.

Lemma string_length_app (S1 S2 : string) :
  String.length (S1 +:+ S2) = (String.length S1 + String.length S2)%nat.
Proof.
  induction S1 as [|c S1 IH]; [done|].
  change (String c S1 +:+ S2) with (String c (S1 +:+ S2)). cbn. by rewrite IH.
Qed.

Lemma substring_all (S : string) : String.substring 0 (String.length S) S = S.
Proof. induction S as [|c S IH]; [done|]. cbn. by rewrite IH. Qed.

Lemma substring_split (S : string) :
  ∀ n, (n <= String.length S)%nat ->
    (String.substring 0 n S ++ String.substring n (String.length S - n) S)%string
    = S
    ∧ String.length (String.substring 0 n S) = n.
Proof.
  induction S as [|c S IH]; intros n Hn.
  - cbn in Hn. assert (n = 0%nat) as -> by lia. done.
  - destruct n as [|n]; cbn.
    + by rewrite substring_all.
    + cbn in Hn. destruct (IH n) as [H1 H2]; [lia|].
      split; [|by rewrite H2].
      change (String c (String.substring 0 n S
                        +:+ String.substring n (String.length S - n) S)
              = String c S).
      by rewrite H1.
Qed.

(** X15: the tag of [filenameWithoutExtension] is the file name cut at its
    end: the file name is the tag followed by as many characters as the
    extension has, a file name without extension is its own tag, and the
    directory part of the path plays no role. *)
Theorem filenameWithoutExtension_cuts_the_end Path :
  (String.length (path_extension (path_filename Path))
   <= String.length (path_filename Path))%nat ->
  (∃ Rest,
     path_filename Path = (filenameWithoutExtension Path ++ Rest)%string
     ∧ String.length Rest
       = String.length (path_extension (path_filename Path)))
  ∧ (path_extension (path_filename Path) = EmptyString ->
       filenameWithoutExtension Path = path_filename Path)
  ∧ (∀ Other, path_filename Other = path_filename Path ->
       filenameWithoutExtension Other = filenameWithoutExtension Path).
Proof.
  intros Hle. unfold filenameWithoutExtension.
  set (F := path_filename Path) in *. set (E := path_extension F) in *.
  split_and!.
  - destruct (substring_split F (String.length F - String.length E)) as [HF HL];
      [lia|].
    exists (String.substring (String.length F - String.length E)
              (String.length F - (String.length F - String.length E)) F).
    split; [by rewrite HF|].
    apply (f_equal String.length) in HF.
    rewrite string_length_app, HL in HF. lia.
  - intros HE. rewrite HE. cbn. rewrite Nat.sub_0_r. apply substring_all.
  - intros Other ->. reflexivity.
Qed.

End Properties.

(** ** Concrete runs *)

Section Runs.
Import Demo.

Lemma graph_nodes U IGN :
  graph !! U = Some IGN ->
  IGN = node "file:///src/a.cpp" 14 ∨ IGN = node "file:///src/a.h" 6.
Proof.
  unfold graph. intros HU.
  apply lookup_insert_Some in HU as [[_ <-] | [_ HU]]; [by left|].
  apply lookup_singleton_Some in HU as [_ <-]. by right.
Qed.

Lemma shards_engaged_demo MainFile Index :
  shards_engaged {| FSI_Index := Index; FSI_MainFile := MainFile |}.
Proof. intros P. reflexivity. Defined.

(** The defect behind C1, run: both files are recorded with their current
    digests, the header by an erroneous run.  A clean run selects the header
    and writes its shard to storage, but the entry keeps [HadErrors = true]
    and nothing is merged. *)
Theorem error_recovery_entry_not_rewritten :
  ∃ st' F,
    update "/src/a.cpp" result brokenHeader false (start brokenHeader true)
      = Some (tt, st')
    ∧ filesToUpdate "/src/a.cpp" result brokenHeader false = Some F
    ∧ F !! "/src/a.h" = Some 6%N
    ∧ ShardVersions st' !! "/src/a.h"
      = Some {| SV_Digest := 6; SV_HadErrors := true |}
    ∧ Trace st'
      = [EvStoreShard "/src/a.h"
           {| Symbols := Some ["/src/a.h"]; Refs := Some []; Relations := Some [];
              Sources := None; Cmd := None |} None].
Proof.
  eexists _, _. split; [vm_compute; reflexivity|].
  split; [vm_compute; reflexivity|]. split_and!; vm_compute; reflexivity.
Qed.

(** The scenario of a header edit: the main file is recorded with its
    current digest and the header with an older one.  A clean run writes,
    records and merges the header's shard, without compile command, and does
    nothing for the main file. *)
Example rerun_after_header_edit :
  ∃ st',
    index acpp (start staleHeader true) = Some (None, st')
    ∧ ShardVersions st' !! "/src/a.h"
      = Some {| SV_Digest := 6; SV_HadErrors := false |}
    ∧ Trace st'
      = [EvStoreShard "/src/a.h"
           {| Symbols := Some ["/src/a.h"]; Refs := Some [];
              Relations := Some []; Sources := None; Cmd := None |} None;
         EvSetShardVersion "/src/a.h"
           {| SV_Digest := 6; SV_HadErrors := false |};
         EvIndexedSymbolsUpdate "/src/a.h" (Some ["/src/a.h"]) (Some [])
           (Some []) false;
         EvRebuilder indexedTU].
Proof.
  eexists. split; [vm_compute; reflexivity|].
  split; vm_compute; reflexivity.
Qed.

(** C5 on the first run over an empty table. *)
Lemma update_persists_before_merging_witness :
  sources_resolve "/src/a.cpp" result = true
  ∧ shards_engaged {| FSI_Index := result; FSI_MainFile := "/src/a.cpp" |}
  ∧ ∃ st' new,
      update "/src/a.cpp" result ∅ false (start ∅ true) = Some (tt, st')
      ∧ Trace st' = Trace (start ∅ true) ++ new
      ∧ persist_before_merge new
      ∧ ShardVersions st' = apply_table_writes new ∅
      ∧ ∀ F P, filesToUpdate "/src/a.cpp" result ∅ false = Some F ->
          is_Some (F !! P) -> ∃ IF Err, EvStoreShard P IF Err ∈ new.
Proof.
  split; [vm_compute; reflexivity|]. split; [apply shards_engaged_demo|].
  apply (update_persists_before_merging "/src/a.cpp" result ∅ false
           (start ∅ true)).
  - vm_compute; reflexivity.
  - apply shards_engaged_demo.
Defined.

(** C9 on the first run over an empty table. *)
Lemma header_shards_carry_no_command_witness :
  sources_resolve "/src/a.cpp" result = true
  ∧ shards_engaged {| FSI_Index := result; FSI_MainFile := "/src/a.cpp" |}
  ∧ ∃ st' new,
      update "/src/a.cpp" result ∅ false (start ∅ true) = Some (tt, st')
      ∧ Trace st' = Trace (start ∅ true) ++ new
      ∧ (∀ P IF Err, EvStoreShard P IF Err ∈ new ->
           (P ≠ "/src/a.cpp" -> Cmd IF = None)
           ∧ (P = "/src/a.cpp" ->
                IF = getShard {| FSI_Index := result;
                                 FSI_MainFile := "/src/a.cpp" |} "/src/a.cpp")
           ∧ Symbols IF = Some [P] ∧ Refs IF = Some []
           ∧ Relations IF = Some [] ∧ Sources IF = None)
      ∧ (∀ P S R L B, EvIndexedSymbolsUpdate P S R L B ∈ new ->
           S = Some [P] ∧ R = Some [] ∧ L = Some []
           ∧ B = bool_decide (P = "/src/a.cpp")).
Proof.
  split; [vm_compute; reflexivity|]. split; [apply shards_engaged_demo|].
  apply (header_shards_carry_no_command "/src/a.cpp" result ∅ false
           (start ∅ true)).
  - vm_compute; reflexivity.
  - apply shards_engaged_demo.
Defined.

(** C2 on a re-run in which only the header changed: nothing happens for
    the main file. *)
Lemma update_idempotent_witness :
  staleHeader !! "/src/a.cpp"
    = Some {| SV_Digest := 14; SV_HadErrors := false |}
  ∧ ∃ st' new,
      update "/src/a.cpp" result staleHeader false (start staleHeader true)
        = Some (tt, st')
      ∧ Trace st' = Trace (start staleHeader true) ++ new
      ∧ ShardVersions st' !! "/src/a.cpp"
        = ShardVersions (start staleHeader true) !! "/src/a.cpp"
      ∧ ∀ E, E ∈ new ->
          is_store "/src/a.cpp" E = false
          ∧ is_table_write "/src/a.cpp" E = false
          ∧ is_merge "/src/a.cpp" E = false.
Proof.
  split; [vm_compute; reflexivity|].
  apply (update_idempotent "/src/a.cpp" result staleHeader false graph
           "/src/a.cpp" {| SV_Digest := 14; SV_HadErrors := false |}
           (start staleHeader true)).
  - vm_compute; reflexivity.
  - apply shards_engaged_demo.
  - reflexivity.
  - vm_compute; reflexivity.
  - intros U IGN HU Hres.
    destruct (graph_nodes U IGN HU) as [-> | ->]; [reflexivity|].
    vm_compute in Hres. discriminate Hres.
  - reflexivity.
Defined.

(** C7 at the input where the code departs from it: the header is recorded
    with its current digest by an erroneous run, the run is clean and the
    disk is read-only.  The header is selected, its storage write fails and
    the failure is logged; then the guard of line 219 fires, as it does on a
    writable disk, and the header's entry is not rewritten and no shard of
    it is merged. *)
Lemma store_failure_recovery_not_merged :
  ∃ st' F IF,
    update "/src/a.cpp" result brokenHeader false (start brokenHeader false)
      = Some (tt, st')
    ∧ filesToUpdate "/src/a.cpp" result brokenHeader false = Some F
    ∧ F !! "/src/a.h" = Some 6%N
    ∧ Trace st'
      = [EvStoreShard "/src/a.h" IF (Some "Read-only file system");
         EvElog "Failed to write background-index shard for file {0}: {1}"
           ["/src/a.h"; "Read-only file system"]]
    ∧ ShardVersions st' !! "/src/a.h"
      ≠ Some {| SV_Digest := 6; SV_HadErrors := false |}
    ∧ existsb (is_table_write "/src/a.h") (Trace st') = false
    ∧ existsb (is_merge "/src/a.h") (Trace st') = false.
Proof.
  eexists _, _, _. split; [vm_compute; reflexivity|].
  split; [vm_compute; reflexivity|].
  split_and!; try (vm_compute; reflexivity).
  vm_compute. discriminate.
Qed.

(** A first run with a storage that refuses writes: both files are logged,
    recorded and merged all the same. *)
Lemma store_failure_does_not_block_merge_witness :
  sources_resolve "/src/a.cpp" result = true
  ∧ shards_engaged {| FSI_Index := result; FSI_MainFile := "/src/a.cpp" |}
  ∧ ∃ st' new F,
      update "/src/a.cpp" result ∅ false (start ∅ false) = Some (tt, st')
      ∧ Trace st' = Trace (start ∅ false) ++ new
      ∧ filesToUpdate "/src/a.cpp" result ∅ false = Some F
      ∧ (∀ P IF E, EvStoreShard P IF (Some E) ∈ new ->
           EvElog "Failed to write background-index shard for file {0}: {1}"
             [P; E] ∈ new
           ∧ ∃ Hash, F !! P = Some Hash
               ∧ (skipsLocked (ShardVersions (start ∅ false)) P Hash false
                  = false ->
                    let SV' := {| SV_Digest := Hash; SV_HadErrors := false |} in
                    ShardVersions st' !! P = Some SV'
                    ∧ EvSetShardVersion P SV' ∈ new
                    ∧ ∃ S R L, EvIndexedSymbolsUpdate P (Some S) (Some R)
                                 (Some L) (bool_decide (P = "/src/a.cpp"))
                               ∈ new))
      ∧ (∀ st2, ShardVersions st2 = ShardVersions (start ∅ false) ->
           ∃ st2' new2,
             update "/src/a.cpp" result ∅ false st2 = Some (tt, st2')
             ∧ Trace st2' = Trace st2 ++ new2
             ∧ ShardVersions st2' = ShardVersions st'
             ∧ memory_events new2 = memory_events new).
Proof.
  split; [vm_compute; reflexivity|]. split; [apply shards_engaged_demo|].
  apply (store_failure_does_not_block_merge "/src/a.cpp" result ∅ false
           (start ∅ false)).
  - vm_compute; reflexivity.
  - apply shards_engaged_demo.
Defined.

(** C6 on a run of [/src/a.cpp] with uncompilable errors over an empty
    table: the header, which has no entry, is stored, recorded with
    [HadErrors = true] and merged; and on a run for which no compiler
    invocation can be built. *)
Lemma index_merges_provisional_result_witness :
  (∃ st1 st' new,
     update "/src/a.cpp"
       {| Symbols := Some ["a"]; Refs := Some []; Relations := Some [];
          Sources := Some (setHadErrors <$> graph); Cmd := Some broken |}
       ∅ true (start ∅ true) = Some (tt, st1)
     ∧ index broken (start ∅ true) = Some (None, st')
     ∧ Trace st' = Trace st1 ++ [EvRebuilder indexedTU]
     ∧ Trace st1 = Trace (start ∅ true) ++ new
     ∧ (∀ P SV, EvSetShardVersion P SV ∈ new -> SV_HadErrors SV = true)
     ∧ (∃ IF Err, EvStoreShard "/src/a.h" IF Err ∈ new)
     ∧ ShardVersions st' !! "/src/a.h"
       = Some {| SV_Digest := 6; SV_HadErrors := true |}
     ∧ EvSetShardVersion "/src/a.h"
         {| SV_Digest := 6; SV_HadErrors := true |} ∈ new
     ∧ ∃ S R L, EvIndexedSymbolsUpdate "/src/a.h" (Some S) (Some R) (Some L)
                  false ∈ new)
  ∧ index noargs (start ∅ true)
    = Some (Some "Couldn't build compiler invocation", start ∅ true).
Proof.
  destruct (index_merges_provisional_result broken (start ∅ true))
    as (Hmerge & _).
  destruct (index_merges_provisional_result noargs (start ∅ true))
    as (_ & Hfail & _).
  split.
  - destruct (Hmerge "#include <a.h>" ["a"] [] (Some []) graph true true)
      as (st1 & st' & new & F & H1 & H2 & H3 & H4 & _ & _ & H5 & _ & _ & Hsel).
    + reflexivity.
    + reflexivity.
    + reflexivity.
    + vm_compute; reflexivity.
    + apply shards_engaged_demo.
    + destruct (Hsel "file:///src/a.h" (node "file:///src/a.h" 6) "/src/a.h")
        as (Hash & IF & Err & S & R & L & (K' & IGN' & HK' & HP' & Hd)
            & _ & Hst & Hsv & Hset & Hmrg).
      * vm_compute; reflexivity.
      * reflexivity.
      * intros SV HSV. vm_compute in HSV. discriminate HSV.
      * assert (Hash = 6%N) as ->.
        { destruct (graph_nodes K' IGN' HK') as [-> | ->];
            [vm_compute in HP'; discriminate HP' | by rewrite <- Hd]. }
        exists st1, st', new. split_and!; try assumption.
        -- by exists IF, Err.
        -- by exists S, R, L.
  - apply (Hfail "#include <a.h>"); reflexivity.
Defined.

(** C3 on the project: the header's shard is stale, the main file's is not,
    and the work list is the one command of [/src/a.cpp]. *)
Lemma loadProject_worklist_witness :
  (∀ LS, LS ∈ loadIndexShards ["/src/a.cpp"] (IndexStorage (start ∅ true)) ->
     isStale_spec LS = true -> DependentTU LS ≠ EmptyString)
  ∧ worklist_spec (loadIndexShards ["/src/a.cpp"] (IndexStorage (start ∅ true)))
    = [acpp]
  ∧ ∃ Cmds st',
      loadProject ["/src/a.cpp"] (start ∅ true) = Some (Cmds, st')
      ∧ Cmds ≡ₚ [acpp].
Proof.
  assert (∀ LS, LS ∈ loadIndexShards ["/src/a.cpp"]
                       (IndexStorage (start ∅ true)) ->
            isStale_spec LS = true -> DependentTU LS ≠ EmptyString) as Hassert.
  { intros LS Hin _. cbn in Hin.
    apply elem_of_cons in Hin as [-> | Hin]; [discriminate|].
    apply elem_of_cons in Hin as [-> | Hin]; [discriminate|].
    by apply elem_of_nil in Hin. }
  split; [exact Hassert|]. split; [vm_compute; reflexivity|].
  destruct (loadProject_worklist ["/src/a.cpp"] (start ∅ true) Hassert)
    as (Cmds & st' & Hrun & Hperm & _).
  exists Cmds, st'. split; [exact Hrun|]. exact Hperm.
Defined.

(** C8 on a shard whose file is gone, and on the header's shard. *)
Lemma unreadable_shard_is_not_stale_witness :
  getBufferForFile "/src/gone.h" = inl "No such file or directory"
  ∧ shardIsStale gone (start ∅ true)
    = Some (false,
            log_event (unreadable_log gone "No such file or directory")
              (start ∅ true))
  ∧ (∀ Rest TUs,
       collectTUsToIndex (gone :: Rest) TUs (start ∅ true)
       = collectTUsToIndex Rest TUs
           (log_event (unreadable_log gone "No such file or directory")
              (start ∅ true))).
Proof.
  split; [reflexivity|].
  destruct (unreadable_shard_is_not_stale gone (start ∅ true)) as [Hun _].
  exact (Hun "No such file or directory" eq_refl).
Defined.

(** C4, as claimed, fails here: the file has a file entry and a canonical
    path but no digest; the table has no entry for it, and the filter still
    answers [false]. *)
Lemma FileFilter_skips_undigested_file :
  getFileEntryForID sm (fid "/src/missing.h") = Some "/src/missing.h"
  ∧ getCanonicalPath (fid "/src/missing.h") sm = Some "/src/missing.h"
  ∧ (∅ : gmap string ShardVersion) !! "/src/missing.h" = None
  ∧ FileFilter ∅ sm (fid "/src/missing.h") = false.
Proof. split_and!; reflexivity. Qed.

(** C4, as amended, on the header: collected again when its entry comes
    from an erroneous run, skipped when the path has no digest. *)
Lemma FileFilter_skips_unchanged_witness :
  (FileFilter brokenHeader sm (fid "/src/a.h") = true <->
     brokenHeader !! "/src/a.h" = None
     ∨ ∃ SV, brokenHeader !! "/src/a.h" = Some SV
             ∧ (SV_Digest SV ≠ 6%N ∨ SV_HadErrors SV = true))
  ∧ FileFilter brokenHeader sm (fid "/src/missing.h") = false.
Proof.
  destruct (FileFilter_skips_unchanged brokenHeader sm (fid "/src/a.h"))
    as [Hfile _].
  destruct (FileFilter_skips_unchanged brokenHeader sm (fid "/src/missing.h"))
    as [_ Hnone].
  split.
  - apply (Hfile "/src/a.h" "/src/a.h" 6%N); reflexivity.
  - apply Hnone. right. right. reflexivity.
Defined.

(** C10 on a queue with the tasks of [/proj/lib/foo.cpp] and
    [/proj/lib/bar.cpp]: boosting [/proj/include/foo.h] raises the first
    and leaves the second. *)
Lemma boostRelated_keying_witness :
  isHeaderFile "/proj/include/foo.h" = true
  ∧ ∃ st',
      boostRelated "/proj/include/foo.h" pending = Some (tt, st')
      ∧ Queue st' !! 0%nat
        = Some (Task_set_QueuePri IndexBoostedFile (indexFileTask foo))
      ∧ Queue st' !! 1%nat = Some (indexFileTask bar).
Proof.
  split; [reflexivity|].
  destruct (boostRelated_keying "/proj/include/foo.h" pending)
    as (st' & Hrun & _ & _ & _ & _ & Hhdr & _).
  destruct (Hhdr eq_refl) as (_ & Hall & Hidx).
  exists st'. split; [exact Hrun|]. split.
  - apply (Hidx 0%nat foo); reflexivity.
  - rewrite (Hall 1%nat (indexFileTask bar) eq_refl). reflexivity.
Defined.

(** *** Further runs *)

Lemma graph_up_to_date :
  up_to_date "/src/a.cpp" graph currentTable false.
Proof.
  intros U IGN HU. destruct (graph_nodes U IGN HU) as [-> | ->].
  - exists "/src/a.cpp". split; vm_compute; reflexivity.
  - exists "/src/a.h". split; vm_compute; reflexivity.
Defined.

Lemma graph_digests_agree : digests_agree "/src/a.cpp" graph.
Proof.
  intros U1 U2 I1 I2 P H1 H2 R1 R2.
  destruct (graph_nodes U1 I1 H1) as [-> | ->];
    destruct (graph_nodes U2 I2 H2) as [-> | ->]; try reflexivity;
    vm_compute in R1, R2; congruence.
Defined.

(** X1 on the re-run after a header edit. *)
Lemma update_touches_only_needed_witness :
  ∃ st',
    update "/src/a.cpp" result staleHeader false (start staleHeader true)
      = Some (tt, st')
    ∧ ∃ new, Trace st' = Trace (start staleHeader true) ++ new
        ∧ (∀ E P, E ∈ new -> event_path E = Some P ->
             needs "/src/a.cpp" result staleHeader false P)
        ∧ (∀ P, ¬ needs "/src/a.cpp" result staleHeader false P ->
             ShardVersions st' !! P
             = ShardVersions (start staleHeader true) !! P)
        ∧ Queue st' = Queue (start staleHeader true).
Proof.
  eexists. split; [vm_compute; reflexivity|].
  apply (update_touches_only_needed "/src/a.cpp" result staleHeader false
           (start staleHeader true)).
  vm_compute; reflexivity.
Defined.

(** X2 on the first run over an empty table: two files, two storage
    writes. *)
Lemma update_stores_each_selected_once_witness :
  ∃ st',
    update "/src/a.cpp" result ∅ false (start ∅ true) = Some (tt, st')
    ∧ ∃ new F,
        Trace st' = Trace (start ∅ true) ++ new
        ∧ filesToUpdate "/src/a.cpp" result ∅ false = Some F
        ∧ NoDup (stored_paths new)
        ∧ length (stored_paths new) = size F
        ∧ ∀ P, P ∈ stored_paths new <-> is_Some (F !! P).
Proof.
  eexists. split; [vm_compute; reflexivity|].
  apply (update_stores_each_selected_once "/src/a.cpp" result ∅ false
           (start ∅ true)).
  vm_compute; reflexivity.
Defined.

(** X3 on the re-run after a header edit: the header's entry goes from
    digest 5 to digest 6. *)
Lemma update_records_changed_file_witness :
  ∃ st' F,
    update "/src/a.cpp" result staleHeader false (start staleHeader true)
      = Some (tt, st')
    ∧ filesToUpdate "/src/a.cpp" result staleHeader false = Some F
    ∧ F !! "/src/a.h" = Some 6%N
    ∧ ShardVersions st' !! "/src/a.h"
      = Some {| SV_Digest := 6; SV_HadErrors := false |}.
Proof.
  eexists _, _. split; [vm_compute; reflexivity|].
  split; [vm_compute; reflexivity|]. split; [vm_compute; reflexivity|].
  refine (proj1 (update_records_changed_file "/src/a.cpp" result staleHeader
                   false (start staleHeader true) _ _ "/src/a.h" 6%N
                   _ _ _ _)).
  - vm_compute; reflexivity.
  - vm_compute; reflexivity.
  - vm_compute; reflexivity.
  - intros SV HSV. vm_compute in HSV. injection HSV as <-. discriminate.
Defined.

(** X4 on a table that holds an erroneous entry: the header is recorded
    with an older digest by a run that had errors, so the clean run selects
    both files and the guard skips neither; run twice. *)
Lemma update_again_is_noop_witness :
  (∀ F P Hash,
     filesToUpdate "/src/a.cpp" result
       (ShardVersions (start erroneousStaleHeader true)) false = Some F ->
     F !! P = Some Hash ->
     skipsLocked (ShardVersions (start erroneousStaleHeader true)) P Hash false
     = false)
  ∧ ∃ st',
      update "/src/a.cpp" result
        (ShardVersions (start erroneousStaleHeader true)) false
        (start erroneousStaleHeader true) = Some (tt, st')
      ∧ update "/src/a.cpp" result (ShardVersions st') false st'
        = Some (tt, st').
Proof.
  assert (∀ F P Hash,
            filesToUpdate "/src/a.cpp" result
              (ShardVersions (start erroneousStaleHeader true)) false = Some F ->
            F !! P = Some Hash ->
            skipsLocked (ShardVersions (start erroneousStaleHeader true)) P
              Hash false = false) as Hnoskip.
  { intros F P Hash HF HP.
    destruct (filesToUpdate_lookup _ _ _ _ _ _ _ HF HP)
      as (Srcs & U & IGN & HS & HU & Hres & _ & Hd).
    injection HS as <-.
    destruct (graph_nodes U IGN HU) as [-> | ->];
      vm_compute in Hres; injection Hres as <-; rewrite <- Hd;
      vm_compute; reflexivity. }
  split; [exact Hnoskip|].
  apply (update_again_is_noop "/src/a.cpp" result false graph
           (start erroneousStaleHeader true)).
  - vm_compute; reflexivity.
  - apply shards_engaged_demo.
  - reflexivity.
  - apply graph_digests_agree.
  - exact Hnoskip.
Defined.

(** X5 on a command without arguments: no compiler invocation. *)
Lemma index_fails_exactly_on_read_or_frontend_failure_witness :
  index noargs (start ∅ true)
  = Some (Some "Couldn't build compiler invocation", start ∅ true).
Proof.
  apply (index_fails_exactly_on_read_or_frontend_failure noargs (start ∅ true)).
  split; [reflexivity|]. right. exists "#include <a.h>".
  split; reflexivity.
Defined.

(** X6 on a project whose two files are recorded with their current
    digests. *)
Lemma index_of_unchanged_sources_is_noop_witness :
  index acpp (start currentTable true)
  = Some (None, log_event (EvRebuilder indexedTU) (start currentTable true)).
Proof.
  apply (index_of_unchanged_sources_is_noop acpp (start currentTable true)
           "#include <a.h>" ["a"] [] (Some []) graph true false).
  - reflexivity.
  - reflexivity.
  - apply graph_up_to_date.
Defined.

(** X7 on a run with uncompilable errors over an empty table. *)
Lemma index_records_error_state_witness :
  ∃ st',
    index broken (start ∅ true) = Some (None, st')
    ∧ ∃ Buf Syms Rs Rels Srcs D U new,
        getBufferForFile (getAbsolutePath broken) = inr Buf
        ∧ runFrontend broken Buf (FileFilter (ShardVersions (start ∅ true)))
          = Executed (Some Syms) (Some Rs) Rels (Some Srcs) D U
        ∧ Trace st' = Trace (start ∅ true) ++ new ++ [EvRebuilder indexedTU]
        ∧ (EvRebuilder indexedTU ∉ new)
        ∧ (∀ P SV, EvSetShardVersion P SV ∈ new -> SV_HadErrors SV = D && U)
        ∧ (∀ P S R L B, EvIndexedSymbolsUpdate P S R L B ∈ new ->
             B = bool_decide (P = getAbsolutePath broken)).
Proof.
  eexists. split; [vm_compute; reflexivity|].
  apply (index_records_error_state broken (start ∅ true)).
  vm_compute; reflexivity.
Defined.

(** X8 on the header, recorded by an erroneous run, facing a clean one. *)
Lemma selected_files_are_collected_witness :
  needsUpdate brokenHeader "/src/a.h" (node "file:///src/a.h" 6) false = true
  ∧ FileFilter brokenHeader sm (fid "/src/a.h") = true.
Proof.
  split; [vm_compute; reflexivity|].
  refine (proj1 (selected_files_are_collected brokenHeader sm (fid "/src/a.h")
                   "/src/a.h" "/src/a.h" 6%N (node "file:///src/a.h" 6) false
                   _ _ _ _) _); vm_compute; reflexivity.
Defined.

(** X11 on the header's entry, through a run of [index]. *)
Lemma table_entries_are_never_deleted_witness :
  is_Some (ShardVersions (start staleHeader true) !! "/src/a.h")
  ∧ ∃ st', index acpp (start staleHeader true) = Some (None, st')
           ∧ is_Some (ShardVersions st' !! "/src/a.h").
Proof.
  assert (is_Some (ShardVersions (start staleHeader true) !! "/src/a.h"))
    as HP by (vm_compute; eexists; reflexivity).
  split; [exact HP|]. eexists. split; [vm_compute; reflexivity|].
  destruct (table_entries_are_never_deleted (start staleHeader true)
              "/src/a.h" HP) as (_ & Hindex & _).
  apply (Hindex acpp None). vm_compute; reflexivity.
Defined.

(** X13 on a command without arguments. *)
Lemma index_task_swallows_errors_witness :
  runIndexFile noargs (start ∅ true)
  = Some (tt, log_event
                (EvElog "Indexing {0} failed: {1}"
                   ["/src/a.cpp"; "Couldn't build compiler invocation"])
                (start ∅ true)).
Proof.
  destruct (index_task_swallows_errors noargs (start ∅ true)) as [Herr _].
  apply (Herr "Couldn't build compiler invocation" (start ∅ true)).
  reflexivity.
Defined.

(** X14 on the project, with the reversal as shuffle. *)
Lemma changed_files_task_batch_witness :
  (∀ l : list CompileCommand, rev l ≡ₚ l)
  ∧ QueuePri (changedFilesTask ["/src/a.cpp"]) = LoadShards
  ∧ ThreadPri (changedFilesTask ["/src/a.cpp"]) = Default
  ∧ ∃ Tasks st',
      runChangedFiles (@rev CompileCommand) ["/src/a.cpp"] (start ∅ true)
        = Some (Tasks, st')
      ∧ Tasks ≡ₚ [indexFileTask acpp].
Proof.
  assert (∀ l : list CompileCommand, rev l ≡ₚ l) as Hrev
    by (intros l; symmetry; apply Permutation_rev).
  split; [exact Hrev|].
  destruct (changed_files_task_batch (@rev CompileCommand) ["/src/a.cpp"]
              (start ∅ true) Hrev) as (HQ & HT & Tasks & st' & Hrun & Hperm & _).
  - intros LS Hin _. cbn in Hin.
    apply elem_of_cons in Hin as [-> | Hin]; [discriminate|].
    apply elem_of_cons in Hin as [-> | Hin]; [discriminate|].
    by apply elem_of_nil in Hin.
  - split; [exact HQ|]. split; [exact HT|].
    exists Tasks, st'. split; [exact Hrun|]. exact Hperm.
Defined.

(** X15 on a header in some directory. *)
Lemma filenameWithoutExtension_cuts_the_end_witness :
  filenameWithoutExtension "/proj/include/foo.h" = "foo"
  ∧ ∃ Rest, path_filename "/proj/include/foo.h"
            = (filenameWithoutExtension "/proj/include/foo.h" ++ Rest)%string
            ∧ String.length Rest = 2%nat.
Proof.
  split; [reflexivity|].
  destruct (filenameWithoutExtension_cuts_the_end "/proj/include/foo.h")
    as ((Rest & HR & HL) & _); [vm_compute; lia|].
  exists Rest. split; [exact HR|exact HL].
Defined.

End Runs.

(** ** Runs on the restored project *)

Section RestoredRuns.
Import Restored.

(** X9 on the restored project: two shards merged, the third skipped, no
    file unreadable. *)
Lemma loadProject_events_witness :
  ∃ Cmds st',
    loadProject ["/src/a.cpp"] (start ∅) = Some (Cmds, st')
    ∧ Trace st' = loadedTrace.
Proof.
  destruct (loadProject ["/src/a.cpp"] (start ∅)) as [[Cmds st']|] eqn:Hrun;
    [|vm_compute in Hrun; discriminate Hrun].
  exists Cmds, st'. split; [reflexivity|].
  destruct (loadProject_events _ _ _ _ Hrun) as [HT _]. rewrite HT.
  vm_compute. reflexivity.
Defined.

(** X10 on the restored project: the header's entry is that of its shard,
    and a path without shard has no entry. *)
Lemma loadProject_table_witness :
  ∃ Cmds st',
    loadProject ["/src/a.cpp"] (start ∅) = Some (Cmds, st')
    ∧ ShardVersions st' !! "/src/a.h"
      = Some {| SV_Digest := 6; SV_HadErrors := false |}
    ∧ ShardVersions st' !! "/src/b.cpp" = None.
Proof.
  destruct (loadProject ["/src/a.cpp"] (start ∅)) as [[Cmds st']|] eqn:Hrun;
    [|vm_compute in Hrun; discriminate Hrun].
  exists Cmds, st'. split; [reflexivity|].
  destruct (loadProject_table _ _ _ _ Hrun) as [Hlast Hother].
  split.
  - refine (Hlast [] header others eq_refl eq_refl _).
    intros L Hin HE. unfold others in Hin.
    apply elem_of_cons in Hin as [-> | Hin]; [vm_compute; discriminate|].
    apply elem_of_cons in Hin as [-> | Hin]; [discriminate HE|].
    exact (False_ind _ (proj1 (elem_of_nil _) Hin)).
  - rewrite Hother; [reflexivity|].
    intros L Hin HE. cbn in Hin. unfold shards, header, others in Hin.
    apply elem_of_cons in Hin as [-> | Hin]; [vm_compute; discriminate|].
    apply elem_of_cons in Hin as [-> | Hin]; [vm_compute; discriminate|].
    apply elem_of_cons in Hin as [-> | Hin]; [discriminate HE|].
    exact (False_ind _ (proj1 (elem_of_nil _) Hin)).
Defined.

(** X12 on the restored project: the header was loaded with its current
    digest, and the analysis that follows does not write it again. *)
Lemma restored_shard_is_not_rewritten_witness :
  ∃ Cmds st1 st2,
    loadProject ["/src/a.cpp"] (start ∅) = Some (Cmds, st1)
    ∧ update "/src/a.cpp" headerOnly (ShardVersions st1) false st1
      = Some (tt, st2)
    ∧ ShardVersions st2 !! "/src/a.h"
      = Some {| SV_Digest := 6; SV_HadErrors := false |}
    ∧ stored_paths (Trace st2) = [].
Proof.
  destruct (loadProject ["/src/a.cpp"] (start ∅)) as [[Cmds st1]|] eqn:Hload;
    [|vm_compute in Hload; discriminate Hload].
  destruct (update "/src/a.cpp" headerOnly (ShardVersions st1) false st1)
    as [[[] st2]|] eqn:Hupd.
  2: { exfalso. revert Hupd. vm_compute in Hload. injection Hload as _ <-.
       vm_compute. discriminate. }
  exists Cmds, st1, st2. split; [reflexivity|]. split; [exact Hupd|].
  destruct (restored_shard_is_not_rewritten ["/src/a.cpp"] (start ∅) Cmds st1
              [] header others "/src/a.cpp" headerOnly false headerSources
              st2 Hload eq_refl eq_refl)
    as [Hentry (new & Htr & Hnone)].
  - intros L Hin HE. unfold others in Hin.
    apply elem_of_cons in Hin as [-> | Hin]; [vm_compute; discriminate|].
    apply elem_of_cons in Hin as [-> | Hin]; [discriminate HE|].
    exact (False_ind _ (proj1 (elem_of_nil _) Hin)).
  - reflexivity.
  - reflexivity.
  - intros U IGN HU _. unfold headerSources in HU.
    apply lookup_singleton_Some in HU as [_ <-]. reflexivity.
  - exact Hupd.
  - split; [exact Hentry|].
    revert Hupd. vm_compute in Hload. injection Hload as _ <-.
    intros Hupd. vm_compute in Hupd. injection Hupd as <-. reflexivity.
Defined.

End RestoredRuns.
